(** * Pdftoaudio: the media-player controller and the application glue

    A shallow embedding of [media_player.py], of [Widget.check_path] from
    [GUI.py] and of [PdfToAudio.save_audio], followed by the properties of
    the specification that concern them; then the rest of [PdfToAudio.py]
    (conversion, temporary files, opening) and the styles, alignment and
    window geometry of [GUI.py], with properties of their own.

    Conventions.
    - Python [int] is [Z]; [//] and [%] with a positive divisor are
      [Z.div] and [Z.modulo] (both round toward minus infinity).
    - Python [float] is IEEE binary64, taken from the Standard Library's
      [SpecFloat] with [prec = 53] and [emax = 1024].
    - The playback speeds [0.5, 1, 1.5, 2] are exact dyadic numbers and
      are kept in [Q]; Python's [==] on them is [Qeq_bool].
    - A method that can raise returns an [outcome]: the object as it is
      when the method returns or when the exception leaves it. *)

From Stdlib Require Import ZArith List Bool Lia.
From Stdlib Require Import Strings.String Strings.Ascii.
From Stdlib Require Import Numbers.DecimalString Numbers.DecimalZ.
From Stdlib Require Import QArith.
From Stdlib Require Import Floats.SpecFloat.
Import ListNotations.

Local Open Scope string_scope.
Local Open Scope Z_scope.

(** ** Python exceptions and results *)

Inductive PyError : Type :=
| TypeError
| UnboundLocalError
| ZeroDivisionError
| OverflowError
| ValueError
| FileNotFoundError
| SameFileError
| IsADirectoryError
| NotADirectoryError.

(** [Done s]: the call returned, the receiver is [s].
    [Raised e s]: exception [e] left the call; the assignments made
    before it are kept in [s]. *)
Inductive outcome (S : Type) : Type :=
| Done (s : S)
| Raised (e : PyError) (s : S).
Arguments Done {S} s.
Arguments Raised {S} e s.

Definition state_of {S : Type} (o : outcome S) : S :=
  match o with Done s => s | Raised _ s => s end.

Definition raised {S : Type} (o : outcome S) : option PyError :=
  match o with Done _ => None | Raised e _ => Some e end.

(** A value computation that may raise. *)
Inductive result (A : Type) : Type :=
| Ret (a : A)
| Exc (e : PyError).
Arguments Ret {A} a.
Arguments Exc {A} e.

(** ** Text: [str(int)] and the format specification [02] *)

Module PyStr.

(** [str(n)] for an [int]. *)
Definition str_int (n : Z) : string :=
  NilEmpty.string_of_int (Z.to_int n).

Fixpoint zeros (k : nat) : string :=
  match k with
  | O => ""
  | S k' => String "0" (zeros k')
  end.

(** [s.zfill(w)] on a string of digits. *)
Definition zfill (w : nat) (s : string) : string :=
  zeros (w - String.length s) ++ s.

(** [format(n, "02")]: minimum width 2, zero fill; the fill goes
    between the sign and the digits, and the sign counts in the
    width. *)
Definition format_02 (n : Z) : string :=
  if n <? 0 then String "-" (zfill 1 (str_int (- n)))
  else zfill 2 (str_int n).

Definition is_digit (c : ascii) : bool :=
  ((48 <=? nat_of_ascii c) && (nat_of_ascii c <=? 57))%nat.

Fixpoint all_digits (s : string) : bool :=
  match s with
  | "" => true
  | String c s' => is_digit c && all_digits s'
  end.

(** The number a string of decimal digits denotes, leading zeros
    allowed. *)
Definition value_of (s : string) : option Z :=
  match NilEmpty.uint_of_string s with
  | Some d => Some (Z.of_uint d)
  | None => None
  end.

End PyStr.

(** ** [MediaPlayer.format_time] *)

(** [mins, secs = divmod(seconds, 60); return f"{mins:02}:{secs:02}"] *)
Definition format_time (seconds : Z) : string :=
  let mins := seconds / 60 in
  let secs := seconds mod 60 in
  PyStr.format_02 mins ++ ":" ++ PyStr.format_02 secs.

(** Modelled from the spec: [parseTime], the inverse of [formatTime] that
    the specification's round-trip property names, is not in the source.
    It reads exactly the shape [MM:SS] -- two digits, a colon, two
    digits -- and returns [MM * 60 + SS]. *)
Definition digit_of (c : ascii) : option Z :=
  if PyStr.is_digit c then Some (Z.of_nat (nat_of_ascii c) - 48) else None.

Definition parseTime (s : string) : option Z :=
  match s with
  | String m1 (String m0 (String ":" (String s1 (String s0 "")))) =>
      match digit_of m1, digit_of m0, digit_of s1, digit_of s0 with
      | Some a, Some b, Some c, Some d =>
          Some ((10 * a + b) * 60 + (10 * c + d))
      | _, _, _, _ => None
      end
  | _ => None
  end.

(** ** Python [float] arithmetic *)

Definition bind {A B : Type} (r : result A) (k : A -> result B) : result B :=
  match r with
  | Ret a => k a
  | Exc e => Exc e
  end.

Notation "x <- r ;; k" := (bind r (fun x => k))
  (at level 61, r at next level, right associativity).

Module PyFloat.

Definition prec : Z := 53.
Definition emax : Z := 1024.

Definition float : Type := spec_float.

(** A float result that came out infinite is an [OverflowError] where
    Python converts or divides integers. *)
Definition finite_or_overflow (f : float) : result float :=
  match f with
  | S754_infinity _ => Exc OverflowError
  | _ => Ret f
  end.

(** [float(n)]: the nearest double, ties to even. *)
Definition of_int (n : Z) : result float :=
  finite_or_overflow (binary_normalize prec emax n 0 false).

(** [a / b] on two [int]s: the correctly rounded quotient of the two
    integers; [ZeroDivisionError] when [b] is 0. The sign of a zero
    result follows the signs of the operands' signs as CPython's
    [long_true_divide] does. *)
Definition int_truediv (a b : Z) : result float :=
  if b =? 0 then Exc ZeroDivisionError
  else
    let sgn := xorb (a <? 0) (b <? 0) in
    if a =? 0 then Ret (S754_zero sgn)
    else
      let '(q, e, l) :=
        SFdiv_core_binary prec emax (Z.abs a) 0 (Z.abs b) 0 in
      finite_or_overflow (binary_round_aux prec emax sgn q e l).

(** [f * n] and [f + n] with [n] an [int]: [n] is converted first. *)
Definition mul_int (f : float) (n : Z) : result float :=
  g <- of_int n ;; Ret (SFmul prec emax f g).

Definition add_int (f : float) (n : Z) : result float :=
  g <- of_int n ;; Ret (SFadd prec emax f g).

(** The integer part of a finite float, toward zero, and whether the
    float has a fractional part. *)
Definition trunc_pos (m : positive) (e : Z) : Z :=
  match e with
  | Z0 => Zpos m
  | Zpos p => Z.shiftl (Zpos m) (Zpos p)
  | Zneg p => Z.shiftr (Zpos m) (Zpos p)
  end.

Definition has_fraction (m : positive) (e : Z) : bool :=
  match e with
  | Zneg p => negb (Zpos m mod 2 ^ Zpos p =? 0)
  | _ => false
  end.

(** [int(f)]: truncation toward zero. *)
Definition to_int (f : float) : result Z :=
  match f with
  | S754_zero _ => Ret 0
  | S754_infinity _ => Exc OverflowError
  | S754_nan => Exc ValueError
  | S754_finite s m e =>
      Ret (if s then - trunc_pos m e else trunc_pos m e)
  end.

(** [math.ceil(f)]. *)
Definition ceil (f : float) : result Z :=
  match f with
  | S754_zero _ => Ret 0
  | S754_infinity _ => Exc OverflowError
  | S754_nan => Exc ValueError
  | S754_finite s m e =>
      Ret (if s then - trunc_pos m e
           else if has_fraction m e then trunc_pos m e + 1
           else trunc_pos m e)
  end.

End PyFloat.

(** [int((c / t) * 100)], the expression [update_player] hands to the
    progress bar. *)
Definition progress_value (c t : Z) : result Z :=
  q <- PyFloat.int_truediv c t ;;
  p <- PyFloat.mul_int q 100 ;;
  PyFloat.to_int p.

(** ** The environment: files, [pathlib] and the audio library *)

Inductive node : Type :=
| File (data : list ascii)
| Dir.

Definition FileSystem : Type := string -> option node.

(** What the libraries the repository calls answer: the file system,
    [pathlib]'s [Path(p).suffix], and the duration in milliseconds that
    [vlc.Media(p).get_duration()] reports once the media is parsed. *)
Record World : Type := {
  fs : FileSystem;
  path_suffix : string -> string;
  media_duration : string -> Z
}.

Definition path_exists (f : FileSystem) (p : string) : bool :=
  match f p with Some _ => true | None => false end.

Definition path_is_file (f : FileSystem) (p : string) : bool :=
  match f p with Some (File _) => true | _ => false end.

Fixpoint mem_string (x : string) (l : list string) : bool :=
  match l with
  | [] => false
  | y :: l' => String.eqb x y || mem_string x l'
  end.

(** ** [GUI.Widget.check_path] *)

Module GUI.

(** An argument of a call: a string, or a class object such as
    [GUI.Widget] passed in the place of [self]. *)
Inductive pyarg : Type :=
| AStr (s : string)
| AClass (name : string).

(** What [check_path] returns: the [Path], [False], or [None] when the
    body falls off its end. *)
Inductive checked : Type :=
| CPath (p : string)
| CFalse
| CNone.

Definition truthy (c : checked) : bool :=
  match c with CPath _ => true | _ => false end.

(** The body of [check_path(self, path, type)], with the lines it
    prints. *)
Definition check_path_body (w : World) (path type : string)
  : checked * list string :=
  if path_exists (fs w) path && path_is_file (fs w) path then
    if String.eqb type "image" &&
       mem_string (path_suffix w path) [".jpg"; ".png"; ".jpeg"]
    then (CPath path, [])
    else if String.eqb type "pdf" &&
            mem_string (path_suffix w path) [".pdf"]
    then (CPath path, [])
    else if String.eqb type "audio" &&
            mem_string (path_suffix w path) [".ogg"; ".wav"; ".mp3"; ".raw"]
    then (CPath path, [])
    else (CNone, [])
  else if String.eqb type "folder" && path_exists (fs w) path then
    (CPath path, [])
  else (CFalse, ["Incorrect file path"]).

(** Python's binding of a call's arguments to the parameters
    [(self, path, type)]: positional arguments fill the parameters in
    order, keyword arguments by name; a parameter left without a
    value, or an argument left without a parameter, is a [TypeError]
    raised before the body runs. *)
Definition params : list string := ["self"; "path"; "type"].

Fixpoint lookup_kw (k : string) (kw : list (string * pyarg))
  : option pyarg :=
  match kw with
  | [] => None
  | (k', v) :: kw' => if String.eqb k k' then Some v else lookup_kw k kw'
  end.

Fixpoint bind_args (ps : list string) (args : list pyarg)
  (kw : list (string * pyarg)) : result (list pyarg) :=
  match ps, args with
  | [], [] => Ret []
  | [], _ :: _ => Exc TypeError
  | p :: ps', a :: args' =>
      match lookup_kw p kw with
      | Some _ => Exc TypeError
      | None => vs <- bind_args ps' args' kw ;; Ret (a :: vs)
      end
  | p :: ps', [] =>
      match lookup_kw p kw with
      | Some v => vs <- bind_args ps' [] kw ;; Ret (v :: vs)
      | None => Exc TypeError
      end
  end.

(** A call [GUI.Widget.check_path(args, **kw)] through the class: the
    function is not bound to an instance, so [self] is a parameter
    like the others. [Path(path)] and the comparisons of [type] need
    strings. *)
Definition check_path (w : World) (args : list pyarg)
  (kw : list (string * pyarg)) : result (checked * list string) :=
  if negb (forallb (fun kv => mem_string (fst kv) params) kw)
  then Exc TypeError
  else
  vs <- bind_args params args kw ;;
  match vs with
  | [_; AStr path; AStr type] => Ret (check_path_body w path type)
  | _ => Exc TypeError
  end.

End GUI.

(** ** The decoder handle [vlc.MediaPlayer] *)

Module Vlc.

(** The members of [vlc.State]. *)
Inductive State : Type :=
| NothingSpecial
| Opening
| Buffering
| Playing
| Paused
| Stopped
| Ended
| Error.

Definition State_eqb (a b : State) : bool :=
  match a, b with
  | NothingSpecial, NothingSpecial
  | Opening, Opening
  | Buffering, Buffering
  | Playing, Playing
  | Paused, Paused
  | Stopped, Stopped
  | Ended, Ended
  | Error, Error => true
  | _, _ => false
  end.

(** The handle as the controller sees it. [time] is the position in
    milliseconds: [get_time] reads it and [set_time] writes the
    position that was asked for. What the library makes of a request
    (a position outside the media, for instance) is not code of the
    repository; the model keeps the request as it was made. *)
Record Player : Type := {
  media : option string;
  state : State;
  time : Z;
  rate : Q
}.

Definition new : Player :=
  {| media := None; state := NothingSpecial; time := -1; rate := 1 |}.

Definition set_media (p : Player) (m : string) : Player :=
  {| media := Some m; state := state p; time := time p; rate := rate p |}.

(** [play()] starts the media; without media it fails and changes
    nothing. *)
Definition play (p : Player) : Player :=
  match media p with
  | Some _ =>
      {| media := media p; state := Playing; time := time p; rate := rate p |}
  | None => p
  end.

(** [pause()] toggles between playing and paused; without media it has
    no effect. *)
Definition pause (p : Player) : Player :=
  match media p with
  | Some _ =>
      {| media := media p;
         state := match state p with
                  | Playing => Paused
                  | Paused => Playing
                  | st => st
                  end;
         time := time p; rate := rate p |}
  | None => p
  end.

Definition stop (p : Player) : Player :=
  {| media := media p; state := Stopped; time := time p; rate := rate p |}.

Definition get_time (p : Player) : Z := time p.
Definition get_state (p : Player) : State := state p.

Definition set_time (p : Player) (t : Z) : Player :=
  {| media := media p; state := state p; time := t; rate := rate p |}.

Definition set_rate (p : Player) (r : Q) : Player :=
  {| media := media p; state := state p; time := time p; rate := r |}.

End Vlc.

(** ** [MediaPlayer]: the object *)

(** The attributes the methods below read or write, with the widgets
    [load_ui] creates reduced to what the controller sets on them: the
    three label texts, the argument of the bar's last [setValue] and the
    speed the speed button's icon names. [track] is the [vlc.Media],
    known by the path it was made from; [track_timer] is whether the
    polling timer is active. *)
Record MediaPlayer : Type := {
  track : option string;
  track_name : option string;
  player : Vlc.Player;
  track_speed : Q;
  track_current_time : Z;
  track_total_time : Z;
  track_timer : bool;
  track_title : string;
  track_current_time_label : string;
  track_total_time_label : string;
  track_bar : option Z;
  speed_button : Q
}.

Definition track_speed_list : list Q := [1 # 2; 1; 3 # 2; 2]%Q.

(** [__init__] followed by [load_ui]. *)
Definition init : MediaPlayer :=
  {| track := None;
     track_name := None;
     player := Vlc.new;
     track_speed := 1;
     track_current_time := 0;
     track_total_time := 0;
     track_timer := false;
     track_title := "[ NOT LOADED ]";
     track_current_time_label := "00:00";
     track_total_time_label := "00:00";
     track_bar := None;
     speed_button := 1 |}.

Definition set_track (s : MediaPlayer) (v : option string) : MediaPlayer :=
  {| track := v; track_name := track_name s; player := player s;
     track_speed := track_speed s;
     track_current_time := track_current_time s;
     track_total_time := track_total_time s; track_timer := track_timer s;
     track_title := track_title s;
     track_current_time_label := track_current_time_label s;
     track_total_time_label := track_total_time_label s;
     track_bar := track_bar s; speed_button := speed_button s |}.

Definition set_track_name (s : MediaPlayer) (v : option string)
  : MediaPlayer :=
  {| track := track s; track_name := v; player := player s;
     track_speed := track_speed s;
     track_current_time := track_current_time s;
     track_total_time := track_total_time s; track_timer := track_timer s;
     track_title := track_title s;
     track_current_time_label := track_current_time_label s;
     track_total_time_label := track_total_time_label s;
     track_bar := track_bar s; speed_button := speed_button s |}.

Definition set_player (s : MediaPlayer) (v : Vlc.Player) : MediaPlayer :=
  {| track := track s; track_name := track_name s; player := v;
     track_speed := track_speed s;
     track_current_time := track_current_time s;
     track_total_time := track_total_time s; track_timer := track_timer s;
     track_title := track_title s;
     track_current_time_label := track_current_time_label s;
     track_total_time_label := track_total_time_label s;
     track_bar := track_bar s; speed_button := speed_button s |}.

Definition set_track_speed (s : MediaPlayer) (v : Q) : MediaPlayer :=
  {| track := track s; track_name := track_name s; player := player s;
     track_speed := v;
     track_current_time := track_current_time s;
     track_total_time := track_total_time s; track_timer := track_timer s;
     track_title := track_title s;
     track_current_time_label := track_current_time_label s;
     track_total_time_label := track_total_time_label s;
     track_bar := track_bar s; speed_button := speed_button s |}.

Definition set_track_current_time (s : MediaPlayer) (v : Z) : MediaPlayer :=
  {| track := track s; track_name := track_name s; player := player s;
     track_speed := track_speed s;
     track_current_time := v;
     track_total_time := track_total_time s; track_timer := track_timer s;
     track_title := track_title s;
     track_current_time_label := track_current_time_label s;
     track_total_time_label := track_total_time_label s;
     track_bar := track_bar s; speed_button := speed_button s |}.

Definition set_track_total_time (s : MediaPlayer) (v : Z) : MediaPlayer :=
  {| track := track s; track_name := track_name s; player := player s;
     track_speed := track_speed s;
     track_current_time := track_current_time s;
     track_total_time := v; track_timer := track_timer s;
     track_title := track_title s;
     track_current_time_label := track_current_time_label s;
     track_total_time_label := track_total_time_label s;
     track_bar := track_bar s; speed_button := speed_button s |}.

Definition set_track_timer (s : MediaPlayer) (v : bool) : MediaPlayer :=
  {| track := track s; track_name := track_name s; player := player s;
     track_speed := track_speed s;
     track_current_time := track_current_time s;
     track_total_time := track_total_time s; track_timer := v;
     track_title := track_title s;
     track_current_time_label := track_current_time_label s;
     track_total_time_label := track_total_time_label s;
     track_bar := track_bar s; speed_button := speed_button s |}.

Definition set_track_title (s : MediaPlayer) (v : string) : MediaPlayer :=
  {| track := track s; track_name := track_name s; player := player s;
     track_speed := track_speed s;
     track_current_time := track_current_time s;
     track_total_time := track_total_time s; track_timer := track_timer s;
     track_title := v;
     track_current_time_label := track_current_time_label s;
     track_total_time_label := track_total_time_label s;
     track_bar := track_bar s; speed_button := speed_button s |}.

Definition set_track_current_time_label (s : MediaPlayer) (v : string)
  : MediaPlayer :=
  {| track := track s; track_name := track_name s; player := player s;
     track_speed := track_speed s;
     track_current_time := track_current_time s;
     track_total_time := track_total_time s; track_timer := track_timer s;
     track_title := track_title s;
     track_current_time_label := v;
     track_total_time_label := track_total_time_label s;
     track_bar := track_bar s; speed_button := speed_button s |}.

Definition set_track_total_time_label (s : MediaPlayer) (v : string)
  : MediaPlayer :=
  {| track := track s; track_name := track_name s; player := player s;
     track_speed := track_speed s;
     track_current_time := track_current_time s;
     track_total_time := track_total_time s; track_timer := track_timer s;
     track_title := track_title s;
     track_current_time_label := track_current_time_label s;
     track_total_time_label := v;
     track_bar := track_bar s; speed_button := speed_button s |}.

Definition set_track_bar (s : MediaPlayer) (v : option Z) : MediaPlayer :=
  {| track := track s; track_name := track_name s; player := player s;
     track_speed := track_speed s;
     track_current_time := track_current_time s;
     track_total_time := track_total_time s; track_timer := track_timer s;
     track_title := track_title s;
     track_current_time_label := track_current_time_label s;
     track_total_time_label := track_total_time_label s;
     track_bar := v; speed_button := speed_button s |}.

Definition set_speed_button (s : MediaPlayer) (v : Q) : MediaPlayer :=
  {| track := track s; track_name := track_name s; player := player s;
     track_speed := track_speed s;
     track_current_time := track_current_time s;
     track_total_time := track_total_time s; track_timer := track_timer s;
     track_title := track_title s;
     track_current_time_label := track_current_time_label s;
     track_total_time_label := track_total_time_label s;
     track_bar := track_bar s; speed_button := v |}.

(** ** [MediaPlayer]: the methods *)

(** Truth value of an argument that is a string or [None]. *)
Definition truthy_str (o : option string) : bool :=
  match o with
  | None => false
  | Some v => negb (String.eqb v "")
  end.

(** The local variable [audio_path] of [load_audio] after the
    [if file_path: ... elif file: ...] statement: [None] when neither
    branch assigned it. The first branch calls [check_path] with two
    positional arguments. *)
Definition load_audio_path (w : World) (file_path file : option string)
  : result (option GUI.checked * list string) :=
  if truthy_str file_path then
    r <- GUI.check_path w
           [GUI.AStr (match file_path with Some p => p | None => "" end);
            GUI.AStr "audio"] [] ;;
    Ret (Some (fst r), snd r)
  else if truthy_str file then
    Ret (Some (GUI.CPath (match file with Some f => f | None => "" end)), [])
  else Ret (None, []).

(** The body of the [if audio_path:] block. *)
Definition load_track (w : World) (s : MediaPlayer) (audio_path : string)
  : MediaPlayer :=
  let s := set_track s (Some audio_path) in
  let s := set_player s (Vlc.set_media (player s) audio_path) in
  let s := set_track_title s
             (match track_name s with Some n => n | None => "None" end) in
  let s := set_track_total_time s (media_duration w audio_path / 1000) in
  set_track_total_time_label s (format_time (track_total_time s)).

(** [load_audio(file_path=None, file=None, file_name='DEFAULT')], with
    the lines printed on the way. *)
Definition load_audio (w : World) (s : MediaPlayer)
  (file_path file : option string) (file_name : string)
  : outcome MediaPlayer * list string :=
  match load_audio_path w file_path file with
  | Exc e => (Raised e s, [])
  | Ret (audio_path, out) =>
      let s := set_track_name s (Some file_name) in
      match audio_path with
      | None => (Raised UnboundLocalError s, out)
      | Some (GUI.CPath p) => (Done (load_track w s p), out)
      | Some _ => (Done s, out)
      end
  end.

Definition play (s : MediaPlayer) : MediaPlayer :=
  let s := set_track_timer s true in
  set_player s (Vlc.play (player s)).

Definition pause (s : MediaPlayer) : MediaPlayer :=
  let s := set_player s (Vlc.pause (player s)) in
  if track_timer s then set_track_timer s false else s.

Definition reset_player (s : MediaPlayer) : MediaPlayer :=
  let s := set_track_current_time s 0 in
  let s := set_track_bar s (Some 0) in
  let s := set_track_current_time_label s
             (format_time (track_current_time s)) in
  set_track_timer s false.

Definition stop (s : MediaPlayer) : MediaPlayer :=
  let s := set_player s (Vlc.stop (player s)) in
  reset_player s.

Definition skip_forward (s : MediaPlayer) (seconds : Z) : MediaPlayer :=
  let current_time := Vlc.get_time (player s) in
  set_player s (Vlc.set_time (player s) (current_time + seconds * 1000)).

Definition skip_backwards (s : MediaPlayer) (seconds : Z) : MediaPlayer :=
  let current_time := Vlc.get_time (player s) in
  set_player s
    (Vlc.set_time (player s) (Z.max 0 (current_time - seconds * 1000))).

Definition seek (s : MediaPlayer) (seconds : Z) : MediaPlayer :=
  if negb (Vlc.State_eqb (Vlc.get_state (player s)) Vlc.Playing) then
    let s := play s in
    let s := set_player s (Vlc.set_time (player s) (seconds * 1000)) in
    pause s
  else
    set_player s (Vlc.set_time (player s) (seconds * 1000)).

Definition set_speed (s : MediaPlayer) (speed : Q) : MediaPlayer :=
  set_player s (Vlc.set_rate (player s) speed).

(** The [for index, current_speed in enumerate(self.track_speed_list)]
    loop of [switch_speed], from position [index] on; it returns at the
    first element equal to the current speed. *)
Fixpoint switch_speed_from (l : list Q) (index : nat) (s : MediaPlayer)
  : MediaPlayer :=
  match l with
  | [] => s
  | current_speed :: l' =>
      if Qeq_bool current_speed (track_speed s) then
        let s :=
          if (index + 1 <? List.length track_speed_list)%nat
          then set_track_speed s (nth (index + 1) track_speed_list 0%Q)
          else set_track_speed s (1 # 2)%Q in
        let s := set_speed s (track_speed s) in
        set_speed_button s (track_speed s)
      else switch_speed_from l' (S index) s
  end.

Definition switch_speed (s : MediaPlayer) : MediaPlayer :=
  switch_speed_from track_speed_list 0 s.

(** The timer's callback. The guard reads the stored position; the
    decoder is read inside the first branch. *)
Definition update_player (s : MediaPlayer) : outcome MediaPlayer :=
  if track_current_time s <=? track_total_time s - 1 then
    let s := set_track_current_time s (Vlc.get_time (player s) / 1000) in
    match progress_value (track_current_time s) (track_total_time s) with
    | Exc e => Raised e s
    | Ret v =>
        let s := set_track_bar s (Some v) in
        Done (set_track_current_time_label s
                (format_time (track_current_time s)))
    end
  else Done (stop s).

(** The bar's range, fixed by [setRange(0, 100)] in [ScaleBar]. *)
Definition bar_minimum : Z := 0.
Definition bar_maximum : Z := 100.

(** [track_bar_clicked(event)], with [x = event.pos().x()] and
    [width = self.track_bar.width()]. *)
Definition clicked_value (x width : Z) : result Z :=
  click_position <- PyFloat.int_truediv x width ;;
  a <- PyFloat.mul_int click_position (bar_maximum - bar_minimum) ;;
  b <- PyFloat.add_int a bar_minimum ;;
  PyFloat.to_int b.

Definition clicked_time (new_track_value total : Z) : result Z :=
  a <- PyFloat.int_truediv new_track_value 100 ;;
  b <- PyFloat.mul_int a total ;;
  PyFloat.ceil b.

Definition track_bar_clicked (s : MediaPlayer) (x width : Z)
  : outcome MediaPlayer :=
  match clicked_value x width with
  | Exc e => Raised e s
  | Ret new_track_value =>
      match clicked_time new_track_value (track_total_time s) with
      | Exc e => Raised e s
      | Ret t =>
          let s := set_track_current_time s t in
          let s := set_track_bar s (Some new_track_value) in
          let s := set_track_current_time_label s
                     (format_time (track_current_time s)) in
          Done (seek s (track_current_time s))
      end
  end.

(** ** [PdfToAudio.save_audio] *)

(** The application object: [speech] is the path of the synthesized
    file, [media_player] the controller. *)
Record PdfToAudio : Type := {
  speech : option string;
  media_player : MediaPlayer
}.

(** The process as [save_audio] can change it: the application object,
    the files, and what has been shown to the user on the console. *)
Record Process : Type := {
  app : PdfToAudio;
  files : FileSystem;
  console : list string
}.

Definition write_file (f : FileSystem) (dst : string) (n : node)
  : FileSystem :=
  fun p => if String.eqb p dst then Some n else f p.

(** What the operating system answers about names: [os.path.basename]
    and [os.path.join]; [parent], the directory in which a name is
    looked up or created (the working directory for a name without
    one); and [same_place], whether two different spellings lead to
    the same place. Permissions and links are not modelled. *)
Record OsPath : Type := {
  basename : string -> string;
  join : string -> string -> string;
  parent : string -> string;
  same_place : string -> string -> bool
}.

Definition leads_to (os : OsPath) (p target : string) : bool :=
  String.eqb p target || same_place os p target.

(** [os.stat]: what a name leads to; the empty name leads nowhere. *)
Definition stat (f : FileSystem) (p : string) : option node :=
  if String.eqb p "" then None else f p.

(** [os.path.samefile] as [shutil] uses it: two names of one existing
    file; [False] as soon as one of the two does not exist. *)
Definition samefile (os : OsPath) (f : FileSystem) (a b : string) : bool :=
  match stat f a, stat f b with
  | Some _, Some _ => leads_to os a b
  | _, _ => false
  end.

(** Where [shutil.copy(src, dst)] writes: into [dst] under the name of
    the source when [dst] is a directory, else at [dst]. *)
Definition copy_target (os : OsPath) (f : FileSystem) (src dst : string)
  : string :=
  match stat f dst with
  | Some Dir => join os dst (basename os src)
  | _ => dst
  end.

(** The files after [data] was written at [target]: every spelling of
    [target] shows the new file. *)
Definition write_at (os : OsPath) (f : FileSystem) (target : string)
  (data : list ascii) : FileSystem :=
  fun p => if leads_to os p target then Some (File data) else f p.

(** [shutil.copy(src, dst)]. [src] must be a path ([None] is a
    [TypeError]). The copy is refused with [SameFileError] when the
    target is the source itself; then the source is opened for reading
    and the target for writing, each with the error of [open]: a name
    that does not exist or is empty, a directory in the place of a
    file ([IsADirectoryError]; Windows reports it as a
    [PermissionError]), a file in the place of the target's
    directory. *)
Definition shutil_copy (os : OsPath) (f : FileSystem) (src : option string)
  (dst : string) : result FileSystem :=
  match src with
  | None => Exc TypeError
  | Some p =>
      let target := copy_target os f p dst in
      if samefile os f p target then Exc SameFileError
      else
        match stat f p with
        | None => Exc FileNotFoundError
        | Some Dir => Exc IsADirectoryError
        | Some (File data) =>
            if String.eqb target "" then Exc FileNotFoundError
            else
              match stat f target, stat f (parent os target) with
              | Some Dir, _ => Exc IsADirectoryError
              | _, Some Dir => Ret (write_at os f target data)
              | _, Some (File _) => Exc NotADirectoryError
              | _, None => Exc FileNotFoundError
              end
        end
  end.

(** [save_audio()], with [file_name] the answer of the save dialog. *)
Definition save_audio (os : OsPath) (pr : Process) (file_name : string)
  : outcome Process :=
  match track (media_player (app pr)) with
  | Some _ =>
      match shutil_copy os (files pr) (speech (app pr)) file_name with
      | Ret f' =>
          Done {| app := app pr; files := f'; console := console pr |}
      | Exc e => Raised e pr
      end
  | None => Done pr
  end.

(** ** Runs of the controller *)

(** What can happen to a [MediaPlayer]: a call of one of its methods, or
    the decoder moving on its own ([Decoder]: playback advances, ends or
    changes state between two calls). *)
Inductive Op : Type :=
| LoadAudio (file_path file : option string) (file_name : string)
| Play
| Pause
| Stop
| SkipForward (seconds : Z)
| SkipBackwards (seconds : Z)
| Seek (seconds : Z)
| SetSpeed (speed : Q)
| SwitchSpeed
| UpdatePlayer
| TrackBarClicked (x width : Z)
| Decoder (st : Vlc.State) (t : Z).

Definition decoder_moves (s : MediaPlayer) (st : Vlc.State) (t : Z)
  : MediaPlayer :=
  set_player s
    {| Vlc.media := Vlc.media (player s); Vlc.state := st; Vlc.time := t;
       Vlc.rate := Vlc.rate (player s) |}.

(** One event; an exception leaves the object as it was when raised. *)
Definition step (w : World) (s : MediaPlayer) (o : Op) : MediaPlayer :=
  match o with
  | LoadAudio file_path file file_name =>
      state_of (fst (load_audio w s file_path file file_name))
  | Play => play s
  | Pause => pause s
  | Stop => stop s
  | SkipForward n => skip_forward s n
  | SkipBackwards n => skip_backwards s n
  | Seek n => seek s n
  | SetSpeed q => set_speed s q
  | SwitchSpeed => switch_speed s
  | UpdatePlayer => state_of (update_player s)
  | TrackBarClicked x width => state_of (track_bar_clicked s x width)
  | Decoder st t => decoder_moves s st t
  end.

Definition run (w : World) (s : MediaPlayer) (ops : list Op) : MediaPlayer :=
  fold_left (step w) ops s.

(** ** Sample objects and auxiliary definitions *)

Definition speed_not_listed (s : MediaPlayer) : bool :=
  forallb (fun q => negb (Qeq_bool q (track_speed s))) track_speed_list.

Definition decoder_time (s : MediaPlayer) : Z := Vlc.time (player s).

(** A track of ten seconds, loaded and playing at second 4. *)
Definition ten_seconds : MediaPlayer :=
  {| track := Some "a.mp3";
     track_name := Some "a";
     player := {| Vlc.media := Some "a.mp3"; Vlc.state := Vlc.Playing;
                  Vlc.time := 4000; Vlc.rate := 1 |};
     track_speed := 1;
     track_current_time := 4;
     track_total_time := 10;
     track_timer := true;
     track_title := "a";
     track_current_time_label := "00:04";
     track_total_time_label := "00:10";
     track_bar := Some 40;
     speed_button := 1 |}.

(** The ten-second track, stored position 4, while the decoder has
    reached 9.5 s. *)
Definition near_end : MediaPlayer := decoder_moves ten_seconds Vlc.Playing 9500.

(** The ten-second track with stored position 10 (the end was reached on
    the last tick) after the decoder was sent back to second 2. *)
Definition sent_back : MediaPlayer :=
  decoder_moves (set_track_current_time ten_seconds 10) Vlc.Playing 2000.

(** A world with three audio files: [a.mp3] and [b.mp3] last ten
    seconds, [c.mp3] half a second. Nothing else exists; for a path it cannot open the
    audio library reports the duration -1. *)
Definition demo_fs : FileSystem :=
  fun p =>
    if String.eqb p "a.mp3" then Some (File ["a"%char])
    else if String.eqb p "b.mp3" then Some (File ["b"%char])
    else if String.eqb p "c.mp3" then Some (File ["c"%char])
    else None.

Definition demo_world : World :=
  {| fs := demo_fs;
     path_suffix := fun _ => ".mp3";
     media_duration := fun p =>
       if String.eqb p "a.mp3" then 10000
       else if String.eqb p "b.mp3" then 10000
       else if String.eqb p "c.mp3" then 500
       else -1 |}.

(** A source [check_path] accepts as audio and the library can play. *)
Definition valid_audio_source (w : World) (p : string) : Prop :=
  GUI.check_path_body w p "audio" = (GUI.CPath p, []) /\
  0 < media_duration w p.

(** The application right after start: no speech file, a new player. *)
Definition started : Process :=
  {| app := {| speech := None; media_player := init |};
     files := demo_fs;
     console := [] |}.

(** The application after [b.mp3] was synthesized and loaded. *)
Definition converted : Process :=
  {| app := {| speech := Some "b.mp3";
               media_player :=
                 state_of (fst (load_audio demo_world init None
                                  (Some "b.mp3") "Track1")) |};
     files := demo_fs;
     console := [] |}.

(** A desk: the working directory [.] holds the speech file [b.mp3],
    also reached as [./b.mp3], and the folder [saved]. *)
Definition desk_fs : FileSystem :=
  fun p =>
    if String.eqb p "." then Some Dir
    else if String.eqb p "b.mp3" then Some (File ["b"%char])
    else if String.eqb p "./b.mp3" then Some (File ["b"%char])
    else if String.eqb p "saved" then Some Dir
    else None.

Definition desk_os : OsPath :=
  {| basename := fun p => if String.eqb p "./b.mp3" then "b.mp3" else p;
     join := fun d b => d ++ "/" ++ b;
     parent := fun p =>
       if String.eqb p "saved/b.mp3" then "saved"
       else if String.eqb p "nowhere/out.mp3" then "nowhere"
       else ".";
     same_place := fun a b =>
       String.eqb a ("./" ++ b) || String.eqb b ("./" ++ a) |}.

(** The application on the desk after [b.mp3] was synthesized and
    loaded. *)
Definition converted_on_desk : Process :=
  {| app := app converted; files := desk_fs; console := [] |}.

(** [P] holds of every number below [n]. *)
Fixpoint forall_below (n : nat) (P : nat -> bool) : bool :=
  match n with
  | O => true
  | S k => P k && forall_below k P
  end.

(** The digits of a non-negative number. *)
Definition digits_of (n : Z) : Decimal.uint :=
  match Z.to_int n with
  | Decimal.Pos d => d
  | Decimal.Neg d => d
  end.

(** The checks behind the round trip, by enumeration of the minutes
    below 100 and the seconds below 60. *)
Definition two_chars_below_100 : bool :=
  forall_below 100
    (fun n => (String.length (PyStr.format_02 (Z.of_nat n)) =? 2)%nat).

Definition round_trip_below_100_minutes : bool :=
  forall_below 100 (fun m =>
    forall_below 60 (fun x =>
      match parseTime (PyStr.format_02 (Z.of_nat m) ++ ":" ++
                       PyStr.format_02 (Z.of_nat x)) with
      | Some v => v =? Z.of_nat m * 60 + Z.of_nat x
      | None => false
      end)).

(** Following the specification's words: the progress value is
    [round(current_time / total_time * 100)], clamped to [[0, 100]];
    [round] is to the nearest integer, a tie going to the even one. *)
Definition round_half_even_div (a b : Z) : Z :=
  let q := a / b in
  let r := a mod b in
  if 2 * r <? b then q
  else if b <? 2 * r then q + 1
  else if Z.even q then q else q + 1.

Definition spec_progress_value (c t : Z) : Z :=
  Z.max 0 (Z.min 100 (round_half_even_div (100 * c) t)).

(** A shift record stands for the non-negative fraction [a / b]: its
    mantissa is the integer part, the round bit says whether the
    fractional part reaches one half, the sticky bit whether it is
    neither zero nor one half. *)
Definition represents (a b : Z) (r : shr_record) : Prop :=
  0 < b /\ 0 <= a /\
  shr_m r = a / b /\
  (shr_r r = true <-> b <= 2 * (a mod b)) /\
  (shr_s r = true <-> a mod b <> 0 /\ 2 * (a mod b) <> b).

(** The float that [binary_round_aux] builds from a rounded mantissa
    [R <= 2 ^ 53] at exponent [E]. *)
Definition float_of (sx : bool) (R E : Z) : spec_float :=
  if R =? 0 then S754_zero sx
  else if R <? 2 ^ 53 then
    if E <=? 971 then S754_finite sx (Z.to_pos R) E else S754_infinity sx
  else
    if E + 1 <=? 971 then S754_finite sx (Z.to_pos (2 ^ 52)) (E + 1)
    else S754_infinity sx.

(** ** Strings and lists as the application uses them *)

(** [s.split(sep)] for a separator of one character: the pieces between
    the occurrences of [sep], at least one piece. *)
Fixpoint str_split (sep : ascii) (s : string) : list string :=
  match s with
  | "" => [""]
  | String c s' =>
      if Ascii.eqb c sep then "" :: str_split sep s'
      else match str_split sep s' with
           | [] => [String c ""]
           | piece :: pieces => String c piece :: pieces
           end
  end.

(** [l[-1 - k]]: the element at distance [k] from the end; [None] is
    Python's [IndexError]. *)
Definition from_end {A : Type} (l : list A) (k : nat) : option A :=
  nth_error (rev l) k.

Fixpoint has_char (c : ascii) (s : string) : bool :=
  match s with
  | "" => false
  | String c' s' => Ascii.eqb c' c || has_char c s'
  end.

(** [needle in hay] on strings. *)
Fixpoint contains (needle hay : string) : bool :=
  match hay with
  | "" => String.prefix needle ""
  | String _ hay' => String.prefix needle hay || contains needle hay'
  end.

(** ** [PdfToAudio]: conversion, temporary files, opening *)

(** What the libraries behind the conversion answer: the text PyPDF2
    extracts from each page of a PDF ([None] when the reader raises),
    the audio pyttsx3 renders for a text, the name
    [NamedTemporaryFile] picks, [str] of a [Path], and the operating
    system's answers about names. *)
Record Services : Type := {
  pdf_pages : string -> option (list string);
  synthesize : string -> list ascii;
  new_temp : FileSystem -> string;
  path_str : string -> string;
  os_path : OsPath
}.

(** The exceptions of this part of the code; [PdfReadError] stands for
    whatever PyPDF2 raises on a file it cannot read. *)
Inductive AppError : Type :=
| Py (e : PyError)
| IndexError
| OSError
| PdfReadError.

Inductive app_outcome (S : Type) : Type :=
| Finished (s : S)
| Failed (e : AppError) (s : S).
Arguments Finished {S} s.
Arguments Failed {S} e s.


Definition app_error {S : Type} (o : app_outcome S) : option AppError :=
  match o with Finished _ => None | Failed e _ => Some e end.

(** The process with the callbacks registered with [atexit]: the names
    handed to [cleanup_tempfile], in the order of registration. *)
Record Runtime : Type := {
  process : Process;
  registered : list string
}.

(** The loop of [extract_text] over the texts of the pages:
    [text = ""; for page ...: text += page.extract_text()]. *)
Definition extract_text (pages : list string) : string :=
  fold_left (fun text page => text ++ page) pages "".

(** [str(pdf_path).split('.')[-2].split('\\')[-1]] on the string of the
    path; [None] is the [IndexError] of [[-2]]. *)
Definition track_name_of (path : string) : option string :=
  match from_end (str_split "." path) 1 with
  | None => None
  | Some segment => from_end (str_split "\" segment) 0
  end.



Definition set_files (rt : Runtime) (f : FileSystem) : Runtime :=
  {| process := {| app := app (process rt); files := f;
                   console := console (process rt) |};
     registered := registered rt |}.

Definition set_app (rt : Runtime) (a : PdfToAudio) : Runtime :=
  {| process := {| app := a; files := files (process rt);
                   console := console (process rt) |};
     registered := registered rt |}.

Definition print_lines (rt : Runtime) (out : list string) : Runtime :=
  {| process := {| app := app (process rt); files := files (process rt);
                   console := console (process rt) ++ out |};
     registered := registered rt |}.

(** [text_to_speech]: a new temporary file receives the audio of the
    text and is registered for removal at exit; its name is returned. *)
Definition text_to_speech (svc : Services) (rt : Runtime) (text : string)
  : Runtime * string :=
  let temp_filename := new_temp svc (files (process rt)) in
  let rt := set_files rt
              (write_file (files (process rt)) temp_filename
                 (File (synthesize svc text))) in
  ({| process := process rt;
      registered := registered rt ++ [temp_filename] |},
   temp_filename).

(** The environment of the controller with the files of the process. *)
Definition world_at (w : World) (f : FileSystem) : World :=
  {| fs := f; path_suffix := path_suffix w;
     media_duration := media_duration w |}.

(** [pdf_to_audio(pdf_path)]. *)
Definition pdf_to_audio (svc : Services) (w : World) (rt : Runtime)
  (pdf_path : string) : app_outcome Runtime :=
  match pdf_pages svc pdf_path with
  | None => Failed PdfReadError rt
  | Some pages =>
      let text := extract_text pages in
      match track_name_of (path_str svc pdf_path) with
      | None => Failed IndexError rt
      | Some file_name =>
          let '(rt, temp) := text_to_speech svc rt text in
          let rt := set_app rt {| speech := Some temp;
                                  media_player :=
                                    media_player (app (process rt)) |} in
          let '(o, out) :=
            load_audio (world_at w (files (process rt)))
              (media_player (app (process rt))) None (Some temp)
              file_name in
          let rt := print_lines rt out in
          let rt' := set_app rt {| speech := speech (app (process rt));
                                   media_player := state_of o |} in
          match o with
          | Done _ => Finished rt'
          | Raised e _ => Failed (Py e) rt'
          end
      end
  end.

(** [load_pdf()], with [file_name] the answer of the open dialog. *)
Definition load_pdf (svc : Services) (w : World) (rt : Runtime)
  (file_name : string) : app_outcome Runtime :=
  match GUI.check_path (world_at w (files (process rt)))
          [GUI.AClass "Widget"]
          [("path", GUI.AStr file_name); ("type", GUI.AStr "pdf")] with
  | Exc e => Failed (Py e) rt
  | Ret (file_path, out) =>
      let rt := print_lines rt out in
      match file_path with
      | GUI.CPath p => pdf_to_audio svc w rt p
      | _ => Finished rt
      end
  end.



(** ** [GUI]: styles, alignment, geometry *)

(** A [dict] with string keys, in insertion order. *)
Definition dict (V : Type) : Type := list (string * V).

Fixpoint dict_get {V : Type} (k : string) (d : dict V) : option V :=
  match d with
  | [] => None
  | (k', v) :: d' => if String.eqb k' k then Some v else dict_get k d'
  end.

(** [d[k] = v]: an existing key keeps its place. *)
Fixpoint dict_set {V : Type} (k : string) (v : V) (d : dict V) : dict V :=
  match d with
  | [] => [(k, v)]
  | (k', v') :: d' =>
      if String.eqb k' k then (k', v) :: d'
      else (k', v') :: dict_set k v d'
  end.

Definition dict_keys {V : Type} (d : dict V) : list string := map fst d.

(** The widget as far as styling goes. *)
Record StyledWidget : Type := {
  object_name : string;
  styles : dict (dict string);
  style_sheet : string
}.

Definition style_rule (sep : string) (kv : string * string) : string :=
  fst kv ++ ":" ++ snd kv ++ sep.

(** [Widget.update_style]: one block per pseudo-element; the
    pseudo-element [none] is the widget itself. *)
Definition style_block (name : string) (entry : string * dict string)
  : string :=
  if String.eqb (fst entry) "none" then
    "#" ++ name ++ " {" ++ String.concat "" (map (style_rule "; ") (snd entry))
    ++ "}"
  else
    "#" ++ name ++ "::" ++ fst entry ++ " {"
    ++ String.concat "" (map (style_rule ";") (snd entry)) ++ "}".

Definition update_style (name : string) (st : dict (dict string)) : string :=
  fold_left (fun acc entry => acc ++ style_block name entry) st "".

(** [Widget.add_style(pseudo_element, style_property, style_value)]. *)
Definition add_style (w : StyledWidget)
  (pseudo_element style_property style_value : string) : StyledWidget :=
  let st :=
    match dict_get pseudo_element (styles w) with
    | None => dict_set pseudo_element [] (styles w)
    | Some _ => styles w
    end in
  let inner :=
    match dict_get pseudo_element st with
    | Some d => d
    | None => []
    end in
  let st := dict_set pseudo_element
              (dict_set style_property style_value inner) st in
  {| object_name := object_name w;
     styles := st;
     style_sheet := update_style (object_name w) st |}.

(** The alignment flags of the [Qt] namespace. *)
Module Qt.
Definition AlignLeft : Z := 1.
Definition AlignRight : Z := 2.
Definition AlignHCenter : Z := 4.
Definition AlignJustify : Z := 8.
Definition AlignTop : Z := 32.
Definition AlignBottom : Z := 64.
Definition AlignVCenter : Z := 128.
Definition AlignCenter : Z := 132.
End Qt.

(** [get_alignment(alignment)], the same in [Layout] and [Widget]. *)
Definition get_alignment (alignment : option string) : Z :=
  match alignment with
  | None => Qt.AlignJustify
  | Some a =>
      if String.eqb a "" then Qt.AlignJustify
      else
        let total_align := 0 in
        let total_align :=
          if contains "center" a then Z.lor total_align Qt.AlignCenter
          else total_align in
        let total_align :=
          if contains "top" a then Z.lor total_align Qt.AlignTop
          else total_align in
        let total_align :=
          if contains "bot" a then Z.lor total_align Qt.AlignBottom
          else total_align in
        let total_align :=
          if contains "right" a then Z.lor total_align Qt.AlignRight
          else total_align in
        let total_align :=
          if contains "left" a then Z.lor total_align Qt.AlignLeft
          else total_align in
        total_align
  end.

(** The geometry [Window.__init__] sets: [(x, y, width, height)]. *)
Definition window_geometry (screen_width screen_height width height : Z)
  : Z * Z * Z * Z :=
  (screen_width / 2 - width / 2, screen_height / 2 - height / 2,
   width, height).




(** The text of [s] before its last [sep]; empty when there is none. *)
Fixpoint dir_part (sep : ascii) (s : string) : string :=
  match s with
  | "" => ""
  | String c s' => if has_char sep s' then String c (dir_part sep s') else ""
  end.

(** An office with one PDF of two pages in [C:\docs], the working
    directory; the speech engine is stood for by the text itself, and
    temporary files are called [tmp1.mp3]. *)
Definition office_fs : FileSystem :=
  fun p =>
    if String.eqb p "C:\docs\book.pdf" then Some (File ["%"%char])
    else if String.eqb p "C:\docs\notes.txt" then Some (File ["n"%char])
    else if String.eqb p "C:\docs" then Some Dir
    else None.

Definition office_world : World :=
  {| fs := office_fs;
     path_suffix := fun p =>
       if String.eqb p "C:\docs\book.pdf" then ".pdf"
       else if String.eqb p "C:\docs\notes.txt" then ".txt"
       else "";
     media_duration := fun _ => 3000 |}.

Definition office_services : Services :=
  {| pdf_pages := fun p =>
       if String.eqb p "C:\docs\book.pdf"
       then Some ["Page one. "; "Page two."]
       else None;
     synthesize := list_ascii_of_string;
     new_temp := fun _ => "tmp1.mp3";
     path_str := fun p => p;
     os_path :=
       {| basename := fun p =>
            match from_end (str_split "\" p) 0 with
            | Some b => b
            | None => p
            end;
          join := fun d b => d ++ "\" ++ b;
          parent := fun p =>
            if has_char "\" p then dir_part "\" p else "C:\docs";
          same_place := fun _ _ => false |} |}.

Definition office : Runtime :=
  {| process := {| app := {| speech := None; media_player := init |};
                   files := office_fs;
                   console := [] |};
     registered := [] |}.

(** [styles[pseudo][prop]], when both keys exist. *)
Definition style_of (w : StyledWidget) (pseudo prop : string)
  : option string :=
  match dict_get pseudo (styles w) with
  | Some d => dict_get prop d
  | None => None
  end.

(** The last of the pieces of [s.split(sep)]. *)
Definition last_piece (sep : ascii) (s : string) : string :=
  last (str_split sep s) "".

(** [math.ceil(a / b)] on the exact quotient of two integers. *)
Definition ceil_div (a b : Z) : Z :=
  if a mod b =? 0 then a / b else a / b + 1.

(** What the actions keep true of the files and the registered names: a
    registered name is never a directory, and the speech file is
    always registered. *)
Definition tidy (rt : Runtime) : Prop :=
  (forall n, In n (registered rt) -> files (process rt) n <> Some Dir) /\
  (forall t, speech (app (process rt)) = Some t -> In t (registered rt)).

(** * Properties *)

(** [take b v]: replace the integer test [b] by its value [v], which
    linear arithmetic over the hypotheses decides. *)
Ltac take b v :=
  replace b with v
    by (symmetry;
        first [ apply Z.leb_le | apply Z.leb_gt | apply Z.ltb_lt
              | apply Z.ltb_ge | apply Z.eqb_eq | apply Z.eqb_neq ];
        lia).

(** ** Sample evaluations *)

Example format_time_75_03 : format_time 4503 = "75:03".
Proof. reflexivity. Qed.

Example format_time_neg : format_time (-1) = "-1:59".
Proof. reflexivity. Qed.

Example format_time_100 : format_time 6000 = "100:00".
Proof. reflexivity. Qed.

Example progress_2_3 : progress_value 2 3 = Ret 66.
Proof. vm_compute. reflexivity. Qed.

Example progress_29_100 : progress_value 29 100 = Ret 28.
Proof. vm_compute. reflexivity. Qed.

Example progress_1_1 : progress_value 7 7 = Ret 100.
Proof. vm_compute. reflexivity. Qed.

Example truediv_agrees_2_3 :
  PyFloat.int_truediv 2 3 =
  Ret (SFdiv 53 1024 (binary_normalize 53 1024 2 0 false)
                     (binary_normalize 53 1024 3 0 false)).
Proof. vm_compute. reflexivity. Qed.

(** ** Playback speed *)

Lemma switch_speed_cases (s : MediaPlayer) :
  (Qeq_bool (1 # 2) (track_speed s) = true /\
   track_speed (switch_speed s) = 1%Q) \/
  (Qeq_bool (1 # 2) (track_speed s) = false /\
   Qeq_bool 1 (track_speed s) = true /\
   track_speed (switch_speed s) = (3 # 2)%Q) \/
  (Qeq_bool (1 # 2) (track_speed s) = false /\
   Qeq_bool 1 (track_speed s) = false /\
   Qeq_bool (3 # 2) (track_speed s) = true /\
   track_speed (switch_speed s) = 2%Q) \/
  (Qeq_bool (1 # 2) (track_speed s) = false /\
   Qeq_bool 1 (track_speed s) = false /\
   Qeq_bool (3 # 2) (track_speed s) = false /\
   Qeq_bool 2 (track_speed s) = true /\
   track_speed (switch_speed s) = (1 # 2)%Q) \/
  (speed_not_listed s = true /\ switch_speed s = s).
Proof.
  unfold switch_speed, speed_not_listed, track_speed_list.
  cbn [switch_speed_from forallb].
  destruct (Qeq_bool (1 # 2) (track_speed s)) eqn:E1.
  { left. split; reflexivity. }
  destruct (Qeq_bool 1 (track_speed s)) eqn:E2.
  { right; left. repeat split; reflexivity. }
  destruct (Qeq_bool (3 # 2) (track_speed s)) eqn:E3.
  { right; right; left. repeat split; reflexivity. }
  destruct (Qeq_bool 2 (track_speed s)) eqn:E4.
  { right; right; right; left. repeat split; reflexivity. }
  right; right; right; right. split; reflexivity.
Qed.

Lemma switch_speed_listed (s : MediaPlayer) :
  In (track_speed s) track_speed_list ->
  In (track_speed (switch_speed s)) track_speed_list.
Proof.
  intros Hin.
  destruct (switch_speed_cases s)
    as [[_ H] | [[_ [_ H]] | [[_ [_ [_ H]]] | [[_ [_ [_ [_ H]]]] | [_ H]]]]];
    rewrite H; simpl; auto.
Qed.







Lemma load_audio_track_speed w s file_path file file_name :
  track_speed (state_of (fst (load_audio w s file_path file file_name)))
  = track_speed s.
Proof.
  unfold load_audio.
  destruct (load_audio_path w file_path file) as [[[[p | |] |] out] | e];
    reflexivity.
Qed.

Lemma pause_track_speed s : track_speed (pause s) = track_speed s.
Proof. unfold pause. simpl. destruct (track_timer s); reflexivity. Qed.

Lemma seek_track_speed s n : track_speed (seek s n) = track_speed s.
Proof.
  unfold seek.
  destruct (negb _); [rewrite pause_track_speed|]; reflexivity.
Qed.

Lemma update_player_track_speed s :
  track_speed (state_of (update_player s)) = track_speed s.
Proof.
  unfold update_player.
  destruct (track_current_time s <=? track_total_time s - 1);
    [|reflexivity].
  destruct (progress_value _ _); reflexivity.
Qed.

Lemma track_bar_clicked_track_speed s x width :
  track_speed (state_of (track_bar_clicked s x width)) = track_speed s.
Proof.
  unfold track_bar_clicked.
  destruct (clicked_value x width) as [v |]; [|reflexivity].
  destruct (clicked_time v (track_total_time s)) as [t |]; [|reflexivity].
  cbn [state_of]. rewrite seek_track_speed. reflexivity.
Qed.

(** Only [switch_speed] assigns [track_speed]. *)
Lemma step_track_speed w s o :
  o <> SwitchSpeed -> track_speed (step w s o) = track_speed s.
Proof.
  intros Ho. destruct o; cbn [step];
    auto using load_audio_track_speed, pause_track_speed, seek_track_speed,
               update_player_track_speed, track_bar_clicked_track_speed.
  congruence.
Qed.

Lemma step_speed_listed w s o :
  In (track_speed s) track_speed_list ->
  In (track_speed (step w s o)) track_speed_list.
Proof.
  intros Hin.
  assert (D : o = SwitchSpeed \/ o <> SwitchSpeed)
    by (destruct o; auto; right; discriminate).
  destruct D as [-> | Hne].
  - apply switch_speed_listed, Hin.
  - rewrite step_track_speed by assumption. exact Hin.
Qed.

Lemma run_speed_listed w ops : forall s,
  In (track_speed s) track_speed_list ->
  In (track_speed (run w s ops)) track_speed_list.
Proof.
  induction ops as [| o ops IH]; intros s Hin; [exact Hin|].
  apply IH, step_speed_listed, Hin.
Qed.

(** C9. The speed starts at 1; [switch_speed] either leaves a speed of
    the list in [track_speed], or, when no element of the list equals
    the current speed, changes nothing; and after any sequence of
    method calls and decoder moves from the initial object the speed is
    an element of [0.5, 1, 1.5, 2]. *)
Theorem track_speed_always_listed :
  track_speed init = 1%Q /\
  (forall s,
     (speed_not_listed s = false /\
      In (track_speed (switch_speed s)) track_speed_list) \/
     (speed_not_listed s = true /\ switch_speed s = s)) /\
  (forall w ops, In (track_speed (run w init ops)) track_speed_list).
Proof.
  split; [reflexivity|]. split.
  - intros s.
    destruct (switch_speed_cases s)
      as [[E H] | [[E1 [E H]] | [[E1 [E2 [E H]]] |
          [[E1 [E2 [E3 [E H]]]] | [E H]]]]].
    5: { right. split; assumption. }
    all: left; split;
      [ unfold speed_not_listed, track_speed_list; cbn [forallb];
        rewrite ?E1, ?E2, ?E3, E; reflexivity
      | rewrite H; simpl; auto ].
  - intros w ops. apply run_speed_listed. simpl; auto.
Qed.

(** ** Seeking *)

Lemma pause_decoder_time s : decoder_time (pause s) = decoder_time s.
Proof.
  destruct s as [tr nm [md st tm rt] sp ct tt ti ttl cl tl bar sb].
  destruct md, ti; reflexivity.
Qed.

Lemma seek_decoder_time s seconds :
  decoder_time (seek s seconds) = seconds * 1000.
Proof.
  unfold seek.
  destruct (negb _); [rewrite pause_decoder_time|]; [|reflexivity].
  destruct s as [tr nm [md st tm rt] sp ct tt ti ttl cl tl bar sb].
  destruct md; reflexivity.
Qed.

(** C1, as stated, fails: on a ten-second track [seek(20)] asks the
    decoder for second 20, [seek(-5)] for second -5 and
    [skip_forward(30)] for second 34. *)
Lemma seek_not_clamped :
  ~ (0 <= decoder_time (seek ten_seconds 20)
       <= track_total_time ten_seconds * 1000) /\
  ~ (0 <= decoder_time (seek ten_seconds (-5))
       <= track_total_time ten_seconds * 1000) /\
  ~ (0 <= decoder_time (skip_forward ten_seconds 30)
       <= track_total_time ten_seconds * 1000).
Proof. vm_compute. repeat split; intros [H1 H2]; congruence. Qed.

(** C1, amended. [seek] hands [seconds * 1000] to the decoder as it is,
    and [skip_forward] the current position plus [seconds * 1000]:
    neither clamps, so the target is within the track exactly when the
    request is. [skip_backwards] clamps at 0 and only there: it never
    asks for a position below 0. *)
Theorem seek_and_skip_targets (s : MediaPlayer) (seconds : Z) :
  decoder_time (seek s seconds) = seconds * 1000 /\
  decoder_time (skip_forward s seconds)
    = decoder_time s + seconds * 1000 /\
  decoder_time (skip_backwards s seconds)
    = Z.max 0 (decoder_time s - seconds * 1000) /\
  0 <= decoder_time (skip_backwards s seconds) /\
  (0 <= decoder_time (seek s seconds) <= track_total_time s * 1000
   <-> 0 <= seconds <= track_total_time s).
Proof.
  rewrite seek_decoder_time.
  unfold skip_forward, skip_backwards, decoder_time, Vlc.get_time. simpl.
  repeat split; lia.
Qed.

(** ** The polling tick *)

(** C2, as stated, fails. With the decoder at 9.5 s of 10 s the position
    read is 9 >= 10 - 1, yet the tick does not stop: it stores 9 and
    shows 90 and 00:09. With the decoder at 2 s but 10 stored, the
    position read would be 2 < 10 - 1, yet the tick stops. *)
Lemma tick_decides_on_stale_position :
  (Vlc.get_time (player near_end) / 1000 >= track_total_time near_end - 1 /\
   update_player near_end <> Done (stop near_end) /\
   track_current_time (state_of (update_player near_end)) = 9 /\
   track_bar (state_of (update_player near_end)) = Some 90 /\
   track_current_time_label (state_of (update_player near_end)) = "00:09") /\
  (Vlc.get_time (player sent_back) / 1000 < track_total_time sent_back - 1 /\
   update_player sent_back = Done (stop sent_back)).
Proof.
  vm_compute. repeat split; intro H; discriminate H.
Qed.

(** C2, amended. The tick compares the position stored by the previous
    tick with the total duration. While the stored position is at most
    [T - 1] it reads the decoder, stores the position read, and sets
    the bar and the time label from it (or leaves with the exception of
    the progress computation, the position already stored); once the
    stored position exceeds [T - 1] it calls [stop]. The position just
    read is never compared with [T]: whatever the decoder reports, the
    first case leaves the decoder running and the second stops it. *)
Theorem update_player_branches (s : MediaPlayer) :
  let c := Vlc.get_time (player s) / 1000 in
  (track_current_time s <= track_total_time s - 1 ->
   match progress_value c (track_total_time s) with
   | Ret v =>
       update_player s =
       Done (set_track_current_time_label
               (set_track_bar (set_track_current_time s c) (Some v))
               (format_time c))
   | Exc e => update_player s = Raised e (set_track_current_time s c)
   end /\
   forall st t,
     Vlc.state (player (state_of (update_player (decoder_moves s st t))))
     = st) /\
  (track_total_time s - 1 < track_current_time s ->
   update_player s = Done (stop s) /\
   forall st t,
     Vlc.state (player (state_of (update_player (decoder_moves s st t))))
     = Vlc.Stopped).
Proof.
  intros c. unfold update_player. split; intros H.
  - take (track_current_time s <=? track_total_time s - 1) true.
    cbn [track_current_time track_total_time set_track_current_time].
    fold c. split.
    + destruct (progress_value c (track_total_time s)); reflexivity.
    + intros st t.
      cbn [decoder_moves set_player track_current_time track_total_time
           player].
      take (track_current_time s <=? track_total_time s - 1) true.
      destruct (progress_value _ _); reflexivity.
  - take (track_current_time s <=? track_total_time s - 1) false.
    split; [reflexivity|].
    intros st t.
    cbn [decoder_moves set_player track_current_time track_total_time
         player].
    take (track_current_time s <=? track_total_time s - 1) false.
    reflexivity.
Qed.

Lemma update_player_branches_witness :
  update_player ten_seconds =
    Done (set_track_current_time_label
            (set_track_bar (set_track_current_time ten_seconds 4) (Some 40))
            "00:04") /\
  update_player sent_back = Done (stop sent_back).
Proof.
  split.
  - assert (H : track_current_time ten_seconds
                <= track_total_time ten_seconds - 1) by (simpl; lia).
    exact (proj1 (proj1 (update_player_branches ten_seconds) H)).
  - assert (H : track_total_time sent_back - 1
                < track_current_time sent_back) by (simpl; lia).
    exact (proj1 (proj2 (update_player_branches sent_back) H)).
Defined.

(** ** Loading *)

(** C10. Called with neither [file_path] nor [file], [load_audio] stores
    the track name and then raises [UnboundLocalError] at
    [if audio_path:]; no validation runs and nothing is printed. *)
Theorem load_audio_without_source (w : World) (s : MediaPlayer)
  (file_name : string) :
  load_audio w s None None file_name =
    (Raised UnboundLocalError (set_track_name s (Some file_name)), []).
Proof. reflexivity. Qed.

(** The call [check_path(file_path, 'audio')] of [load_audio] binds
    [self] and [path] and leaves [type] without a value. *)
Lemma check_path_two_arguments (w : World) (a b : GUI.pyarg) :
  GUI.check_path w [a; b] [] = Exc TypeError.
Proof. reflexivity. Qed.

(** The calls of [PdfToAudio] pass the class for [self] and reach the
    body. *)
Lemma check_path_three_arguments (w : World) (path type : string) :
  GUI.check_path w [GUI.AClass "Widget"]
    [("path", GUI.AStr path); ("type", GUI.AStr type)]
  = Ret (GUI.check_path_body w path type) /\
  GUI.check_path w [GUI.AClass "Widget"; GUI.AStr path; GUI.AStr type] []
  = Ret (GUI.check_path_body w path type).
Proof. split; reflexivity. Qed.


Lemma load_audio_file_loads (w : World) (s : MediaPlayer)
  (p : string) (file_name : string) :
  p <> "" ->
  load_audio w s None (Some p) file_name =
    (Done (load_track w (set_track_name s (Some file_name)) p), []).
Proof.
  intros Hp. unfold load_audio, load_audio_path, truthy_str.
  destruct (String.eqb_spec p ""); [contradiction|]. reflexivity.
Qed.



(** C7, as stated, fails. Loading the valid ten-second [b.mp3] over a
    track that stands at second 4 leaves the stored position at 4, the
    bar at 40 and the label at 00:04; loading the valid half-second
    [c.mp3] sets the total duration to 0. *)
Lemma load_audio_keeps_position :
  valid_audio_source demo_world "b.mp3" /\
  valid_audio_source demo_world "c.mp3" /\
  (let r := load_audio demo_world ten_seconds None (Some "b.mp3") "Track1" in
   raised (fst r) = None /\
   track_current_time (state_of (fst r)) = 4 /\
   track_bar (state_of (fst r)) = Some 40 /\
   track_current_time_label (state_of (fst r)) = "00:04") /\
  (let r := load_audio demo_world init None (Some "c.mp3") "Track1" in
   raised (fst r) = None /\
   track_total_time (state_of (fst r)) = 0).
Proof. vm_compute. repeat split; reflexivity. Qed.

(** C7, amended. A load of a non-empty source given as [file] returns
    normally and replaces the track: the media of the object and of the
    decoder, the stored and the displayed name, the total duration --
    the duration reported in milliseconds, divided by 1000 and rounded
    down, hence above 0 exactly from one full second on -- and its
    label. The stored position, the bar and the position label are not
    touched: the position is 0 after the load when it was 0 before, as
    on a new player. *)
Theorem load_audio_replaces_track (w : World) (s : MediaPlayer)
  (p file_name : string) :
  p <> "" ->
  exists s',
    load_audio w s None (Some p) file_name = (Done s', []) /\
    track s' = Some p /\
    Vlc.media (player s') = Some p /\
    track_name s' = Some file_name /\
    track_title s' = file_name /\
    track_total_time s' = media_duration w p / 1000 /\
    (0 < track_total_time s' <-> 1000 <= media_duration w p) /\
    track_total_time_label s' = format_time (media_duration w p / 1000) /\
    track_current_time s' = track_current_time s /\
    track_bar s' = track_bar s /\
    track_current_time_label s' = track_current_time_label s /\
    track_speed s' = track_speed s /\
    track_timer s' = track_timer s.
Proof.
  intros Hp. eexists. split; [apply load_audio_file_loads, Hp|].
  cbn. repeat split; try reflexivity.
  - intros H.
    pose proof (Z.div_mod (media_duration w p) 1000 ltac:(lia)).
    pose proof (Z.mod_pos_bound (media_duration w p) 1000 ltac:(lia)).
    lia.
  - intros H. apply Z.div_str_pos. lia.
Qed.

Lemma load_audio_replaces_track_witness :
  exists s',
    load_audio demo_world init None (Some "b.mp3") "Track1" = (Done s', []) /\
    track s' = Some "b.mp3" /\
    track_total_time s' = 10 /\
    track_current_time s' = 0.
Proof.
  assert (Hp : "b.mp3" <> "") by discriminate.
  destruct (load_audio_replaces_track demo_world init "b.mp3" "Track1" Hp)
    as [s' [H1 [H2 [_ [_ [_ [H6 [_ [_ [H9 _]]]]]]]]]].
  exists s'. repeat split; assumption.
Defined.

(** ** Saving *)

(** C8, as stated, fails. With no track loaded [save_audio] returns
    without a word: the console is as empty as before and nothing else
    is changed. With a track loaded and the dialog cancelled -- the
    empty answer -- nothing is copied: [shutil.copy] raises. *)
Lemma save_audio_without_track_is_silent :
  track (media_player (app started)) = None /\
  save_audio desk_os started "out.mp3" = Done started /\
  console (state_of (save_audio desk_os started "out.mp3")) = [] /\
  track (media_player (app converted_on_desk)) <> None /\
  save_audio desk_os converted_on_desk ""
    = Raised FileNotFoundError converted_on_desk.
Proof.
  split; [reflexivity|]. split; [reflexivity|]. split; [reflexivity|].
  split; [|reflexivity]. vm_compute. discriminate.
Qed.

Lemma leads_to_refl (os : OsPath) (p : string) : leads_to os p p = true.
Proof. unfold leads_to. rewrite String.eqb_refl. reflexivity. Qed.

(** The copy that [shutil.copy] makes when nothing stands in its way. *)
Lemma shutil_copy_writes (os : OsPath) (f : FileSystem)
  (src dst : string) (data : list ascii) :
  stat f src = Some (File data) ->
  let target := copy_target os f src dst in
  target <> "" ->
  samefile os f src target = false ->
  stat f target <> Some Dir ->
  stat f (parent os target) = Some Dir ->
  shutil_copy os f (Some src) dst = Ret (write_at os f target data).
Proof.
  intros Hsrc target Hne Hsame Hnd Hpar. unfold shutil_copy.
  fold target. rewrite Hsame, Hsrc.
  destruct (String.eqb_spec target ""); [contradiction|].
  rewrite Hpar.
  destruct (stat f target) as [[d |] |]; try reflexivity. contradiction.
Qed.

Lemma save_audio_writes (os : OsPath) (pr : Process)
  (file_name src : string) (data : list ascii) :
  track (media_player (app pr)) <> None ->
  speech (app pr) = Some src ->
  stat (files pr) src = Some (File data) ->
  let target := copy_target os (files pr) src file_name in
  target <> "" ->
  samefile os (files pr) src target = false ->
  stat (files pr) target <> Some Dir ->
  stat (files pr) (parent os target) = Some Dir ->
  exists pr',
    save_audio os pr file_name = Done pr' /\
    files pr' target = Some (File data) /\
    files pr' src = Some (File data) /\
    app pr' = app pr /\ console pr' = console pr.
Proof.
  intros Ht Hs Hf target Hne Hsame Hnd Hpar. unfold save_audio.
  destruct (track (media_player (app pr))); [|contradiction].
  rewrite Hs.
  rewrite (shutil_copy_writes os (files pr) src file_name data Hf
             Hne Hsame Hnd Hpar).
  fold target. eexists. split; [reflexivity|].
  cbn [files app console]. unfold write_at.
  split; [rewrite leads_to_refl; reflexivity|].
  split; [|split; reflexivity].
  destruct (leads_to os src target); [reflexivity|].
  unfold stat in Hf. destruct (String.eqb src ""); [discriminate|].
  exact Hf.
Qed.

(** C8, amended. With a track loaded, [save_audio] copies the speech
    file to the chosen destination whenever the copy can be made: the
    destination is a name in an existing directory, not a directory
    itself and not the speech file, or it is an existing directory,
    and the copy then goes inside it under the speech file's name. The
    speech file stays. On an empty answer it raises and copies
    nothing. With no track loaded it copies nothing and leaves
    everything as it was, without any message to the user. *)
Theorem save_audio_copies (os : OsPath) (pr : Process) (file_name : string) :
  (forall src data,
     track (media_player (app pr)) <> None ->
     speech (app pr) = Some src ->
     stat (files pr) src = Some (File data) ->
     let target := copy_target os (files pr) src file_name in
     target <> "" ->
     samefile os (files pr) src target = false ->
     stat (files pr) target <> Some Dir ->
     stat (files pr) (parent os target) = Some Dir ->
     (stat (files pr) file_name <> Some Dir -> target = file_name) /\
     (stat (files pr) file_name = Some Dir ->
      target = join os file_name (basename os src)) /\
     exists pr',
       save_audio os pr file_name = Done pr' /\
       files pr' target = Some (File data) /\
       files pr' src = Some (File data) /\
       app pr' = app pr /\ console pr' = console pr) /\
  (forall src data,
     track (media_player (app pr)) <> None ->
     speech (app pr) = Some src ->
     stat (files pr) src = Some (File data) ->
     file_name = "" ->
     save_audio os pr file_name = Raised FileNotFoundError pr) /\
  (track (media_player (app pr)) = None ->
   save_audio os pr file_name = Done pr).
Proof.
  split; [|split].
  - intros src data Ht Hs Hf target Hne Hsame Hnd Hpar.
    split; [|split].
    + intros Hd. unfold target, copy_target.
      destruct (stat (files pr) file_name) as [[d |] |]; try reflexivity.
      contradiction.
    + intros Hd. unfold target, copy_target. rewrite Hd. reflexivity.
    + exact (save_audio_writes os pr file_name src data Ht Hs Hf
               Hne Hsame Hnd Hpar).
  - intros src data Ht Hs Hf ->. unfold save_audio.
    destruct (track (media_player (app pr))); [|contradiction].
    rewrite Hs. unfold shutil_copy, copy_target, samefile.
    cbn [stat String.eqb]. rewrite Hf.
    destruct (stat (files pr) src); reflexivity.
  - intros Ht. unfold save_audio. rewrite Ht. reflexivity.
Qed.

(** On the desk: a new name receives the copy; the folder [saved]
    receives it as [saved/b.mp3] and stays a folder; the speech file
    under its other spelling, and a name in a folder that does not
    exist, are refused. *)
Lemma save_audio_copies_witness :
  (exists pr',
     save_audio desk_os converted_on_desk "out.mp3" = Done pr' /\
     files pr' "out.mp3" = Some (File ["b"%char])) /\
  (exists pr',
     save_audio desk_os converted_on_desk "saved" = Done pr' /\
     files pr' "saved/b.mp3" = Some (File ["b"%char]) /\
     files pr' "saved" = Some Dir) /\
  save_audio desk_os converted_on_desk "./b.mp3"
    = Raised SameFileError converted_on_desk /\
  save_audio desk_os converted_on_desk "nowhere/out.mp3"
    = Raised FileNotFoundError converted_on_desk /\
  save_audio desk_os started "out.mp3" = Done started.
Proof.
  assert (Ht : track (media_player (app converted_on_desk)) <> None)
    by (vm_compute; discriminate).
  assert (Hs : speech (app converted_on_desk) = Some "b.mp3") by reflexivity.
  assert (Hf : stat (files converted_on_desk) "b.mp3"
               = Some (File ["b"%char])) by reflexivity.
  split; [|split; [|split; [|split]]].
  - destruct (proj1 (save_audio_copies desk_os converted_on_desk "out.mp3")
                "b.mp3" ["b"%char] Ht Hs Hf)
      as [_ [_ [pr' [H1 [H2 _]]]]];
      try (vm_compute; discriminate); try reflexivity.
    exists pr'. split; assumption.
  - destruct (proj1 (save_audio_copies desk_os converted_on_desk "saved")
                "b.mp3" ["b"%char] Ht Hs Hf)
      as [_ [_ [pr' [H1 [H2 _]]]]];
      try (vm_compute; discriminate); try reflexivity.
    exists pr'. split; [exact H1|]. split; [exact H2|].
    clear H2. vm_compute in H1. injection H1 as <-. reflexivity.
  - reflexivity.
  - reflexivity.
  - assert (Hn : track (media_player (app started)) = None) by reflexivity.
    exact (proj2 (proj2 (save_audio_copies desk_os started "out.mp3")) Hn).
Defined.

(** ** Time formatting *)

Lemma forall_below_spec (P : nat -> bool) : forall n,
  forall_below n P = true -> forall i, (i < n)%nat -> P i = true.
Proof.
  induction n as [| n IH]; intros H i Hi; [lia|].
  cbn in H. apply andb_true_iff in H. destruct H as [Hn Hrest].
  destruct (Nat.eq_dec i n) as [-> | Hne]; [exact Hn|].
  apply IH; [exact Hrest | lia].
Qed.

Lemma str_int_nonneg (n : Z) :
  0 <= n ->
  PyStr.str_int n = NilEmpty.string_of_uint (digits_of n) /\
  Z.of_uint (digits_of n) = n.
Proof.
  intros Hn. unfold PyStr.str_int, digits_of.
  pose proof (DecimalZ.of_to n) as Hof.
  destruct n as [| p | p]; [split; reflexivity | | lia].
  cbn in *. split; [reflexivity | exact Hof].
Qed.

Lemma all_digits_string_of_uint (d : Decimal.uint) :
  PyStr.all_digits (NilEmpty.string_of_uint d) = true.
Proof. induction d; cbn; auto. Qed.

Lemma all_digits_app (a b : string) :
  PyStr.all_digits a = true -> PyStr.all_digits b = true ->
  PyStr.all_digits (a ++ b) = true.
Proof.
  induction a as [| c a IH]; cbn; intros Ha Hb; [exact Hb|].
  apply andb_true_iff in Ha. destruct Ha as [Hc Ha].
  rewrite Hc. cbn. apply IH; assumption.
Qed.

Lemma all_digits_zeros (k : nat) : PyStr.all_digits (PyStr.zeros k) = true.
Proof. induction k; cbn; auto. Qed.

Lemma value_of_zeros (k : nat) (d : Decimal.uint) :
  PyStr.value_of (PyStr.zeros k ++ NilEmpty.string_of_uint d)
  = Some (Z.of_uint d).
Proof.
  unfold PyStr.value_of. induction k as [| k IH]; cbn.
  - rewrite NilEmpty.usu. reflexivity.
  - destruct (NilEmpty.uint_of_string
                (PyStr.zeros k ++ NilEmpty.string_of_uint d)) as [u |];
      [| discriminate IH].
    cbn. injection IH as IH. unfold Z.of_uint in *. cbn. rewrite IH.
    reflexivity.
Qed.

Lemma length_zfill (w : nat) (s : string) :
  String.length (PyStr.zfill w s) = Nat.max w (String.length s).
Proof.
  unfold PyStr.zfill.
  assert (Hz : forall k, String.length (PyStr.zeros k) = k)
    by (induction k; cbn; auto).
  assert (Happ : forall a b : string,
            String.length (a ++ b) = (String.length a + String.length b)%nat)
    by (induction a; cbn; auto).
  rewrite Happ, Hz. lia.
Qed.

(** The field [02] of a non-negative number: digits only, at least two
    of them, denoting the number. *)
Lemma format_02_nonneg (n : Z) :
  0 <= n ->
  PyStr.all_digits (PyStr.format_02 n) = true /\
  (2 <= String.length (PyStr.format_02 n))%nat /\
  PyStr.value_of (PyStr.format_02 n) = Some n.
Proof.
  intros Hn. unfold PyStr.format_02.
  take (n <? 0) false.
  destruct (str_int_nonneg n Hn) as [Hs Hv]. rewrite Hs.
  split; [|split].
  - apply all_digits_app;
      [apply all_digits_zeros | apply all_digits_string_of_uint].
  - rewrite length_zfill. lia.
  - unfold PyStr.zfill. rewrite value_of_zeros, Hv. reflexivity.
Qed.

Lemma format_02_two_chars (n : Z) :
  0 <= n < 100 -> String.length (PyStr.format_02 n) = 2%nat.
Proof.
  intros Hn.
  assert (Hall : two_chars_below_100 = true) by (vm_compute; reflexivity).
  pose proof (forall_below_spec _ _ Hall (Z.to_nat n)) as H.
  cbv beta in H. rewrite Z2Nat.id in H by lia.
  apply Nat.eqb_eq, H. lia.
Qed.

Lemma parseTime_format_02 (m x : Z) :
  0 <= m < 100 -> 0 <= x < 60 ->
  parseTime (PyStr.format_02 m ++ ":" ++ PyStr.format_02 x)
  = Some (m * 60 + x).
Proof.
  intros Hm Hx.
  assert (Hall : round_trip_below_100_minutes = true)
    by (vm_compute; reflexivity).
  pose proof (forall_below_spec _ _ Hall (Z.to_nat m)) as H1.
  cbv beta in H1.
  assert (Hm' : (Z.to_nat m < 100)%nat) by lia.
  pose proof (forall_below_spec _ _ (H1 Hm') (Z.to_nat x)) as H2.
  cbv beta in H2. rewrite !Z2Nat.id in H2 by lia.
  assert (Hx' : (Z.to_nat x < 60)%nat) by lia.
  specialize (H2 Hx').
  destruct (parseTime _) as [v |]; [|discriminate H2].
  apply Z.eqb_eq in H2. congruence.
Qed.

(** C4. For every non-negative [s], [format_time s] is the minutes
    [s / 60] -- at least two digits, not reduced modulo 60, no hour
    field -- then a colon, then the seconds [s mod 60] on exactly two
    digits; 4503 gives 75:03; and [parseTime] reads [s] back whenever
    [s / 60 < 100]. *)
Theorem format_time_round_trip (s : Z) :
  0 <= s ->
  (exists mm ss,
     format_time s = mm ++ ":" ++ ss /\
     PyStr.all_digits mm = true /\ PyStr.all_digits ss = true /\
     (2 <= String.length mm)%nat /\ String.length ss = 2%nat /\
     PyStr.value_of mm = Some (s / 60) /\
     PyStr.value_of ss = Some (s mod 60)) /\
  format_time 4503 = "75:03" /\
  (s / 60 < 100 -> parseTime (format_time s) = Some s).
Proof.
  intros Hs.
  assert (Hm : 0 <= s / 60) by (apply Z.div_pos; lia).
  assert (Hx : 0 <= s mod 60 < 60) by (apply Z.mod_pos_bound; lia).
  split; [|split; [reflexivity|]].
  - exists (PyStr.format_02 (s / 60)), (PyStr.format_02 (s mod 60)).
    destruct (format_02_nonneg (s / 60) Hm) as [A1 [A2 A3]].
    destruct (format_02_nonneg (s mod 60) (proj1 Hx)) as [B1 [_ B3]].
    repeat split; try assumption; try reflexivity.
    apply format_02_two_chars. lia.
  - intros Hlt. unfold format_time. cbv zeta.
    rewrite parseTime_format_02 by lia.
    f_equal. pose proof (Z.div_mod s 60). lia.
Qed.

Lemma format_time_round_trip_witness :
  format_time 4503 = "75:03" /\ parseTime (format_time 4503) = Some 4503.
Proof.
  assert (H0 : 0 <= 4503) by lia.
  assert (H1 : 4503 / 60 < 100) by (vm_compute; reflexivity).
  split.
  - exact (proj1 (proj2 (format_time_round_trip 4503 H0))).
  - exact (proj2 (proj2 (format_time_round_trip 4503 H0)) H1).
Defined.

(** Without the bound on the minutes [parseTime] does not read the
    string back: 6000 seconds are formatted as 100:00. *)
Lemma parseTime_needs_two_digit_minutes :
  format_time 6000 = "100:00" /\ parseTime (format_time 6000) = None.
Proof. split; reflexivity. Qed.

(** ** The progress value *)

Lemma digits2_pos_bounds (p : positive) :
  2 ^ (Zpos (digits2_pos p) - 1) <= Zpos p < 2 ^ Zpos (digits2_pos p).
Proof.
  induction p as [p IH | p IH |]; cbn [digits2_pos].
  - rewrite Pos2Z.inj_succ.
    replace (Z.succ (Zpos (digits2_pos p)) - 1) with (Zpos (digits2_pos p)) by lia.
    rewrite Z.pow_succ_r by lia.
    replace (Zpos (digits2_pos p)) with (Z.succ (Zpos (digits2_pos p) - 1)) at 1 by lia.
    rewrite Z.pow_succ_r by lia. lia.
  - rewrite Pos2Z.inj_succ.
    replace (Z.succ (Zpos (digits2_pos p)) - 1) with (Zpos (digits2_pos p)) by lia.
    rewrite Z.pow_succ_r by lia.
    replace (Zpos (digits2_pos p)) with (Z.succ (Zpos (digits2_pos p) - 1)) at 1 by lia.
    rewrite Z.pow_succ_r by lia. lia.
  - cbn. lia.
Qed.

Lemma div_mod_double (a b : Z) :
  0 < b -> 0 <= a ->
  a / (2 * b) = (a / b) / 2 /\
  a mod (2 * b) = b * ((a / b) mod 2) + a mod b.
Proof.
  intros Hb Ha.
  pose proof (Z.div_mod a b ltac:(lia)) as E.
  pose proof (Z.mod_pos_bound a b Hb) as Hr.
  pose proof (Z.div_mod (a / b) 2 ltac:(lia)) as E2.
  pose proof (Z.mod_pos_bound (a / b) 2 ltac:(lia)) as Hr2.
  assert (H : (2 * b) * ((a / b) / 2) + (b * ((a / b) mod 2) + a mod b) = a) by nia.
  assert (Hrange : 0 <= b * ((a / b) mod 2) + a mod b < 2 * b) by nia.
  pose proof (Z.div_mod a (2*b) ltac:(lia)) as E3.
  pose proof (Z.mod_pos_bound a (2*b) ltac:(lia)) as Hr3.
  apply (Z.div_mod_unique (2 * b)); [left; lia | left; lia | lia].
Qed.

Lemma shr_1_fields (r : shr_record) :
  0 <= shr_m r ->
  shr_m (shr_1 r) = shr_m r / 2 /\
  (shr_r (shr_1 r) = true <-> shr_m r mod 2 = 1) /\
  shr_s (shr_1 r) = orb (shr_r r) (shr_s r).
Proof.
  destruct r as [m rr ss]. cbn [shr_m shr_r shr_s]. intros Hm.
  destruct m as [| [p | p |] | p]; cbn [shr_1 shr_m shr_r shr_s]; try lia.
  - change (0 / 2) with 0. change (0 mod 2) with 0.
    repeat split; intros; try discriminate; try reflexivity; lia.
  - rewrite Pos2Z.inj_xI.
    assert (E1 : (2 * Zpos p + 1) / 2 = Zpos p)
      by (symmetry; apply (Z.div_unique _ 2 _ 1); lia).
    assert (E2 : (2 * Zpos p + 1) mod 2 = 1)
      by (symmetry; apply (Z.mod_unique _ 2 (Zpos p) 1); lia).
    rewrite E1, E2. repeat split; reflexivity.
  - rewrite Pos2Z.inj_xO.
    assert (E1 : (2 * Zpos p) / 2 = Zpos p)
      by (symmetry; apply (Z.div_unique _ 2 _ 0); lia).
    assert (E2 : (2 * Zpos p) mod 2 = 0)
      by (symmetry; apply (Z.mod_unique _ 2 (Zpos p) 0); lia).
    rewrite E1, E2. repeat split; intros; try discriminate; try reflexivity; lia.
  - change (1 / 2) with 0. change (1 mod 2) with 1.
    repeat split; reflexivity.
Qed.

Lemma shr_1_represents (a b : Z) (r : shr_record) :
  represents a b r -> represents a (2 * b) (shr_1 r).
Proof.
  intros [Hb [Ha [Hm [Hr Hs]]]].
  destruct (div_mod_double a b Hb Ha) as [Hd Hmod].
  pose proof (Z.mod_pos_bound a b Hb) as Hrem.
  pose proof (Z.div_pos a b Ha Hb) as Hq.
  pose proof (Z.mod_pos_bound (a / b) 2 ltac:(lia)) as Hpar.
  destruct (shr_1_fields r ltac:(lia)) as [F1 [F2 F3]].
  assert (Hor : orb (shr_r r) (shr_s r) = true <-> a mod b <> 0).
  { rewrite orb_true_iff, Hr, Hs. split.
    - intros [H | [H _]]; lia.
    - intros H. destruct (Z.eq_dec (2 * (a mod b)) b); [left | right]; lia. }
  unfold represents. rewrite F1, F2, F3, Hor, Hd, Hmod, Hm.
  split; [lia|]. split; [lia|]. split; [reflexivity|].
  assert (Hcases : (a / b) mod 2 = 0 \/ (a / b) mod 2 = 1) by lia.
  destruct Hcases as [E | E]; rewrite E; split; split; intros; nia.
Qed.

Lemma iter_pos_shr_1_represents (p : positive) : forall a b r,
  represents a b r -> represents a (b * 2 ^ Zpos p) (iter_pos shr_1 p r).
Proof.
  induction p as [p IH | p IH |]; intros a b r H; cbn [iter_pos].
  - apply shr_1_represents in H. apply IH in H. apply IH in H.
    replace (b * 2 ^ Zpos p~1) with (2 * b * 2 ^ Zpos p * 2 ^ Zpos p);
      [exact H|].
    replace (Zpos p~1) with (Zpos p + Zpos p + 1) by lia.
    rewrite !Z.pow_add_r by lia. change (2 ^ 1) with 2. ring.
  - apply IH in H. apply IH in H.
    replace (b * 2 ^ Zpos p~0) with (b * 2 ^ Zpos p * 2 ^ Zpos p);
      [exact H|].
    replace (Zpos p~0) with (Zpos p + Zpos p) by lia.
    rewrite Z.pow_add_r by lia. ring.
  - apply shr_1_represents in H.
    replace (b * 2 ^ 1) with (2 * b) by (change (2 ^ 1) with 2; ring).
    exact H.
Qed.

(** [shr] by [n] places divides the fraction by [2 ^ n]. *)
Lemma shr_represents (a b : Z) (r : shr_record) (e n : Z) :
  represents a b r ->
  represents a (b * 2 ^ Z.max 0 n) (fst (shr r e n)) /\
  snd (shr r e n) = e + Z.max 0 n.
Proof.
  intros H. unfold shr. destruct n as [| p | p]; cbn [fst snd].
  - rewrite Z.max_id. change (2 ^ 0) with 1.
    rewrite Z.mul_1_r, Z.add_0_r. split; [exact H | reflexivity].
  - rewrite Z.max_r by lia. split; [|reflexivity].
    apply iter_pos_shr_1_represents, H.
  - rewrite Z.max_l by lia. change (2 ^ 0) with 1.
    rewrite Z.mul_1_r, Z.add_0_r. split; [exact H | reflexivity].
Qed.

Lemma exact_represents (m : Z) :
  0 <= m -> represents m 1 (shr_record_of_loc m loc_Exact).
Proof.
  intros Hm. unfold represents. cbn [shr_record_of_loc shr_m shr_r shr_s].
  rewrite Z.div_1_r, Z.mod_1_r.
  repeat split; try lia; intros; try discriminate; lia.
Qed.

Lemma new_location_represents (t q r : Z) :
  0 <= q -> 0 <= r < t ->
  represents (t * q + r) t (shr_record_of_loc q (new_location t r)).
Proof.
  intros Hq Hr.
  assert (Hd : (t * q + r) / t = q)
    by (symmetry; apply (Z.div_unique _ t q r); lia).
  assert (Hm : (t * q + r) mod t = r)
    by (symmetry; apply (Z.mod_unique _ t q r); lia).
  unfold represents. rewrite Hd, Hm.
  split; [lia|]. split; [nia|].
  unfold new_location, new_location_even, new_location_odd.
  destruct (Z.even t) eqn:Ev.
  - destruct (Z.eqb_spec r 0) as [E0 | N0].
    + cbn [shr_record_of_loc shr_m shr_r shr_s]. repeat split; intros; try discriminate; lia.
    + destruct (Z.compare_spec (2 * r) t) as [E | L | G]; cbn [shr_record_of_loc shr_m shr_r shr_s];
        repeat split; intros; try discriminate; try reflexivity; lia.
  - assert (Hodd : Z.odd t = true) by (rewrite <- Z.negb_even, Ev; reflexivity).
    apply Z.odd_spec in Hodd. destruct Hodd as [k Hk].
    destruct (Z.eqb_spec r 0) as [E0 | N0].
    + cbn [shr_record_of_loc shr_m shr_r shr_s]. repeat split; intros; try discriminate; lia.
    + destruct (Z.compare_spec (2 * r + 1) t) as [E | L | G]; cbn [shr_record_of_loc shr_m shr_r shr_s];
        repeat split; intros; try discriminate; try reflexivity; lia.
Qed.

(** Rounding to nearest: the rounded mantissa is within one half of the
    fraction. *)
Lemma round_nearest_even_represents (a b : Z) (r : shr_record) :
  represents a b r ->
  let R := round_nearest_even (shr_m r) (loc_of_shr_record r) in
  a / b <= R <= a / b + 1 /\
  - b <= 2 * (R * b - a) <= b.
Proof.
  intros [Hb [Ha [Hm [Hr Hs]]]] R. subst R.
  pose proof (Z.div_mod a b ltac:(lia)) as E.
  pose proof (Z.mod_pos_bound a b Hb) as Hrem.
  destruct r as [m rr ss]. cbn [shr_m shr_r shr_s] in *. subst m.
  destruct rr, ss; cbn [loc_of_shr_record round_nearest_even].
  - assert (b <= 2 * (a mod b)) by (apply Hr; reflexivity). nia.
  - assert (b <= 2 * (a mod b)) by (apply Hr; reflexivity).
    destruct (Z.even (a / b)); nia.
  - assert (~ b <= 2 * (a mod b)) by (intros H; apply Hr in H; discriminate).
    nia.
  - assert (~ b <= 2 * (a mod b)) by (intros H; apply Hr in H; discriminate).
    nia.
Qed.

Lemma Zdigits2_nonneg (m : Z) : 0 <= Zdigits2 m.
Proof. destruct m; cbn; lia. Qed.

Lemma Zdigits2_bounds (m : Z) :
  0 < m -> 2 ^ (Zdigits2 m - 1) <= m < 2 ^ Zdigits2 m.
Proof.
  intros Hm. destruct m as [| p | p]; try lia.
  apply digits2_pos_bounds.
Qed.

Lemma Zdigits2_le (m k : Z) : 0 <= k -> 0 <= m < 2 ^ k -> Zdigits2 m <= k.
Proof.
  intros Hk [H0 Hm].
  destruct (Z.eq_dec m 0) as [-> | Hne]; [cbn; lia|].
  pose proof (Zdigits2_bounds m ltac:(lia)) as [Hlo _].
  assert (H : 2 ^ (Zdigits2 m - 1) < 2 ^ k) by lia.
  apply Z.pow_lt_mono_r_iff in H; lia.
Qed.

Lemma Zdigits2_ge (m k : Z) : 0 <= k -> 2 ^ k <= m -> k + 1 <= Zdigits2 m.
Proof.
  intros Hk Hm.
  assert (0 < 2 ^ k) by (apply Z.pow_pos_nonneg; lia).
  pose proof (Zdigits2_bounds m ltac:(lia)) as [_ Hhi].
  pose proof (Zdigits2_nonneg m).
  assert (H' : 2 ^ k < 2 ^ Zdigits2 m) by lia.
  apply Z.pow_lt_mono_r_iff in H'; lia.
Qed.

Lemma fexp_eq (x : Z) :
  fexp PyFloat.prec PyFloat.emax x = Z.max (x - 53) (-1074).
Proof. reflexivity. Qed.

Lemma shr_no_shift (r : shr_record) (e n : Z) : n <= 0 -> shr r e n = (r, e).
Proof. intros Hn. unfold shr. destruct n; try reflexivity. lia. Qed.

Lemma binary_round_aux_spec (sx : bool) (m e : Z) (l : location) (a b : Z) :
  0 <= m ->
  represents a b (shr_record_of_loc m l) ->
  let n := Z.max 0 (fexp PyFloat.prec PyFloat.emax (Zdigits2 m + e) - e) in
  exists R,
    binary_round_aux PyFloat.prec PyFloat.emax sx m e l = float_of sx R (e + n) /\
    m / 2 ^ n <= R <= m / 2 ^ n + 1 /\
    R <= 2 ^ 53 /\
    - (b * 2 ^ n) <= 2 * (R * (b * 2 ^ n) - a) <= b * 2 ^ n.
Proof.
  intros Hm Hrep n.
  assert (Hmab : m = a / b).
  { destruct Hrep as [_ [_ [H _]]]. destruct l as [| []]; exact H. }
  assert (Hb : 0 < b) by apply Hrep.
  assert (Hn0 : 0 <= n) by (subst n; lia).
  assert (Hpn : 0 < 2 ^ n) by (apply Z.pow_pos_nonneg; lia).
  unfold binary_round_aux, shr_fexp.
  destruct (shr_represents a b _ e
              (fexp PyFloat.prec PyFloat.emax (Zdigits2 m + e) - e) Hrep)
    as [Hrep' He'].
  fold n in Hrep', He'.
  destruct (shr (shr_record_of_loc m l) e
              (fexp PyFloat.prec PyFloat.emax (Zdigits2 m + e) - e))
    as [mrs' e'].
  cbn [fst snd] in Hrep', He'. subst e'.
  pose proof (round_nearest_even_represents _ _ _ Hrep') as HR.
  cbv zeta in HR.
  set (R := round_nearest_even (shr_m mrs') (loc_of_shr_record mrs')) in *.
  destruct HR as [HR1 HR2].
  assert (Hdiv : a / (b * 2 ^ n) = m / 2 ^ n)
    by (rewrite Hmab, Z.div_div by lia; reflexivity).
  rewrite Hdiv in HR1.
  assert (Hm53 : m / 2 ^ n < 2 ^ 53).
  { apply Z.div_lt_upper_bound; [exact Hpn|].
    destruct (Z.eq_dec m 0) as [-> | Hne]; [lia|].
    pose proof (Zdigits2_bounds m ltac:(lia)) as [_ Hhi].
    pose proof (Zdigits2_nonneg m) as Hd.
    assert (Hle : Zdigits2 m <= n + 53) by (subst n; rewrite fexp_eq; lia).
    pose proof (Z.pow_le_mono_r 2 _ _ ltac:(lia) Hle) as Hp.
    rewrite Z.pow_add_r in Hp by lia. lia. }
  assert (Hm0 : 0 <= m / 2 ^ n) by (apply Z.div_pos; lia).
  assert (He'min : -1074 <= e + n) by (subst n; rewrite fexp_eq; lia).
  exists R. split; [|repeat split; lia].
  assert (HdR : R < 2 ^ 53 -> Zdigits2 R <= 53)
    by (intros H; apply Zdigits2_le; lia).
  unfold float_of.
  destruct (Z.eqb_spec R 0) as [R0 | Rn0].
  - rewrite R0. rewrite shr_no_shift by (cbn [Zdigits2]; rewrite fexp_eq; lia).
    reflexivity.
  - destruct (Z.ltb_spec R (2 ^ 53)) as [Rlt | Rge].
    + rewrite shr_no_shift by (rewrite fexp_eq; specialize (HdR Rlt); lia).
      cbn [shr_record_of_loc shr_m].
      destruct R as [| p | p]; try lia.
      change (PyFloat.emax - PyFloat.prec) with 971. reflexivity.
    + assert (RE : R = 2 ^ 53) by lia. rewrite RE.
      replace (fexp PyFloat.prec PyFloat.emax (Zdigits2 (2 ^ 53) + (e + n))
               - (e + n)) with 1
        by (change (Zdigits2 (2 ^ 53)) with 54; rewrite fexp_eq; lia).
      change (PyFloat.emax - PyFloat.prec) with 971. reflexivity.
Qed.

Lemma pow2_pos (k : Z) : 0 <= k -> 0 < 2 ^ k.
Proof. intros. apply Z.pow_pos_nonneg; lia. Qed.

Lemma pow2_split (s n : Z) : 0 <= n <= s -> 2 ^ s = 2 ^ n * 2 ^ (s - n).
Proof.
  intros H. rewrite <- Z.pow_add_r by lia. f_equal. lia.
Qed.

(** Truncation of a rounded, non-negative float with exponent [-k]. *)
Lemma to_int_float_of (R k : Z) :
  0 <= k -> 0 <= R <= 2 ^ 53 ->
  PyFloat.to_int (float_of false R (- k)) = Ret (R / 2 ^ k).
Proof.
  intros Hk HR. unfold float_of.
  destruct (Z.eqb_spec R 0) as [-> | Rn0].
  { cbn [PyFloat.to_int]. rewrite Z.div_0_l; [reflexivity|].
    pose proof (pow2_pos k Hk). lia. }
  destruct (Z.ltb_spec R (2 ^ 53)) as [Rlt | Rge].
  - take (- k <=? 971) true.
    cbn [PyFloat.to_int]. f_equal. unfold PyFloat.trunc_pos.
    rewrite Z2Pos.id by lia.
    destruct k as [| p | p]; cbn [Z.opp]; try lia.
    + change (2 ^ 0) with 1. rewrite Z.div_1_r. reflexivity.
    + apply Z.shiftr_div_pow2. lia.
  - assert (RE : R = 2 ^ 53) by lia. subst R.
    take (- k + 1 <=? 971) true.
    cbn [PyFloat.to_int]. f_equal. unfold PyFloat.trunc_pos.
    rewrite Z2Pos.id by (apply pow2_pos; lia).
    destruct (Z.eq_dec k 0) as [-> | Hk0].
    { reflexivity. }
    destruct (Z.eq_dec k 1) as [-> | Hk1].
    { reflexivity. }
    assert (Hk2 : 2 <= k) by lia.
    destruct (- k + 1) as [| p | p] eqn:Ek; try lia.
    rewrite Z.shiftr_div_pow2 by lia.
    replace (Zpos p) with (k - 1) by lia.
    rewrite (pow2_split k 1) by lia. change (2 ^ 1) with 2.
    rewrite <- Z.div_div by (pose proof (pow2_pos (k - 1)); lia).
    reflexivity.
Qed.

Lemma core_shift (c s : Z) :
  0 <= s ->
  match s with
  | Zpos _ => Z.shiftl c s
  | Z0 => c
  | Zneg _ => 0
  end = c * 2 ^ s.
Proof.
  intros Hs. destruct s as [| p | p].
  - rewrite Z.pow_0_r, Z.mul_1_r. reflexivity.
  - apply Z.shiftl_mul_pow2. lia.
  - lia.
Qed.

(** The quotient of two positive integers [c <= t] as a float: a
    mantissa [R] at exponent [-k], at most 1 and within half a unit of
    the last place of [c / t]. When the quotient is in the normal range
    the mantissa has its full 53 bits. *)
Lemma int_truediv_spec (c t : Z) :
  1 <= c <= t ->
  exists R k,
    PyFloat.int_truediv c t = Ret (float_of false R (- k)) /\
    0 <= k /\ 0 <= R <= 2 ^ k /\ R <= 2 ^ 53 /\
    - t <= 2 * (R * t - c * 2 ^ k) <= t /\
    (t < 2 ^ 1021 -> 2 ^ 52 <= R /\ 52 <= k).
Proof.
  intros Hct. unfold PyFloat.int_truediv.
  take (t =? 0) false.
  take (c =? 0) false.
  take (c <? 0) false.
  take (t <? 0) false.
  cbn [xorb]. rewrite !Z.abs_eq by lia.
  unfold SFdiv_core_binary.
  rewrite !Z.add_0_r, Z.sub_diag, Z.sub_0_l.
  set (d1 := Zdigits2 c). set (d2 := Zdigits2 t).
  set (e' := Z.min (fexp PyFloat.prec PyFloat.emax (d1 - d2)) 0).
  pose proof (Zdigits2_bounds c ltac:(lia)) as [Hc1 Hc2]. fold d1 in Hc1, Hc2.
  pose proof (Zdigits2_bounds t ltac:(lia)) as [Ht1 Ht2]. fold d2 in Ht1, Ht2.
  assert (Hd1 : 1 <= d1) by (apply (Zdigits2_ge c 0); cbn; lia).
  pose proof (Zdigits2_nonneg t) as Hd2n. fold d2 in Hd2n.
  assert (Hd12 : d1 <= d2).
  { assert (H : 2 ^ (d1 - 1) < 2 ^ d2) by lia.
    apply Z.pow_lt_mono_r_iff in H; lia. }
  set (s := - e').
  assert (Hs : 0 <= s) by (subst s e'; lia).
  rewrite (core_shift c s Hs).
  pose proof (pow2_pos s Hs) as Hps.
  destruct (Z.div_eucl (c * 2 ^ s) t) as [q r] eqn:Eqr.
  assert (Hq : q = c * 2 ^ s / t) by (unfold Z.div; rewrite Eqr; reflexivity).
  assert (Hr : r = (c * 2 ^ s) mod t)
    by (unfold Z.modulo; rewrite Eqr; reflexivity).
  pose proof (Z.div_mod (c * 2 ^ s) t ltac:(lia)) as Hdm.
  pose proof (Z.mod_pos_bound (c * 2 ^ s) t ltac:(lia)) as Hrb.
  rewrite <- Hq, <- Hr in Hdm. rewrite <- Hr in Hrb.
  assert (Hq0 : 0 <= q) by (rewrite Hq; apply Z.div_pos; nia).
  assert (Hqs : q <= 2 ^ s)
    by (rewrite Hq; apply Z.div_le_upper_bound; nia).
  pose proof (new_location_represents t q r Hq0 Hrb) as Hrep.
  rewrite <- Hdm in Hrep.
  destruct (binary_round_aux_spec false q e' (new_location t r) _ _ Hq0 Hrep)
    as [R [Hres [HR1 [HR2 HR3]]]].
  set (n := Z.max 0 (fexp PyFloat.prec PyFloat.emax (Zdigits2 q + e') - e'))
    in *.
  assert (Hdq : Zdigits2 q <= s + 1).
  { apply Zdigits2_le; [lia|]. rewrite Z.pow_add_r by lia.
    change (2 ^ 1) with 2. lia. }
  assert (Hn : 0 <= n <= s) by (subst n; rewrite fexp_eq; lia).
  exists R, (s - n).
  pose proof (pow2_pos n ltac:(lia)) as Hpn.
  pose proof (pow2_pos (s - n) ltac:(lia)) as Hpk.
  pose proof (pow2_split s n Hn) as Hsplit.
  assert (HR0 : 0 <= R).
  { assert (0 <= q / 2 ^ n) by (apply Z.div_pos; lia). lia. }
  assert (Herr : - t <= 2 * (R * t - c * 2 ^ (s - n)) <= t).
  { rewrite Hsplit in HR3.
    split; apply (Z.mul_le_mono_pos_l _ _ (2 ^ n) Hpn); lia. }
  split.
  { rewrite Hres. unfold PyFloat.finite_or_overflow.
    replace (e' + n) with (- (s - n)) by (subst s; lia).
    unfold float_of.
    destruct (R =? 0); [reflexivity|].
    destruct (R <? 2 ^ 53).
    - take (- (s - n) <=? 971) true. reflexivity.
    - take (- (s - n) + 1 <=? 971) true. reflexivity. }
  split; [lia|]. split; [split; [exact HR0 | nia]|].
  split; [exact HR2|]. split; [exact Herr|].
  intros Hnormal.
  assert (Hd2 : d2 <= 1021).
  { assert (H : 2 ^ (d2 - 1) < 2 ^ 1021) by lia.
    apply Z.pow_lt_mono_r_iff in H; lia. }
  assert (He' : e' = d1 - d2 - 53) by (subst e'; rewrite fexp_eq; lia).
  assert (Hsv : s = 53 + d2 - d1) by (subst s; lia).
  assert (Hq52 : 2 ^ (52 + n) <= q /\ n = Zdigits2 q - 53).
  { assert (Hq52 : 2 ^ 52 <= q).
    { rewrite Hq. apply Z.div_le_lower_bound; [lia|].
      assert (H : 2 ^ 52 * 2 ^ d2 = 2 ^ (d1 - 1) * 2 ^ s).
      { rewrite <- !Z.pow_add_r by lia. f_equal. lia. }
      nia. }
    pose proof (Zdigits2_ge q 52 ltac:(lia) Hq52) as Hdq'.
    assert (Hnv : n = Zdigits2 q - 53) by (subst n; rewrite fexp_eq; lia).
    split; [|exact Hnv].
    pose proof (Zdigits2_bounds q ltac:(lia)) as [Hlo _].
    replace (52 + n) with (Zdigits2 q - 1) by lia. exact Hlo. }
  destruct Hq52 as [Hq52 Hnv].
  split; [|lia].
  apply Z.le_trans with (m := q / 2 ^ n); [|lia].
  apply Z.div_le_lower_bound; [lia|].
  rewrite Z.pow_add_r in Hq52 by lia. lia.
Qed.

Lemma of_int_100 :
  PyFloat.of_int 100 = Ret (S754_finite false 7036874417766400 (-46)).
Proof. reflexivity. Qed.

(** A rounded positive float as a mantissa and an exponent. *)
Lemma float_of_finite (R k : Z) :
  0 <= k -> 0 < R <= 2 ^ k -> R <= 2 ^ 53 ->
  exists mq eq j,
    float_of false R (- k) = S754_finite false (Z.to_pos mq) eq /\
    0 < mq /\ eq = - k + j /\ R = mq * 2 ^ j /\ 0 <= j <= 1 /\ eq <= 0.
Proof.
  intros Hk HR H53. unfold float_of.
  take (R =? 0) false.
  destruct (Z.ltb_spec R (2 ^ 53)) as [Rlt | Rge].
  - exists R, (- k), 0.
    take (- k <=? 971) true.
    rewrite Z.pow_0_r. repeat split; lia.
  - assert (RE : R = 2 ^ 53) by lia.
    assert (Hk53 : 53 <= k).
    { destruct HR as [_ HR]. rewrite RE in HR.
      apply Z.pow_le_mono_r_iff in HR; lia. }
    exists (2 ^ 52), (- k + 1), 1.
    take (- k + 1 <=? 971) true.
    rewrite RE. repeat split; try lia; reflexivity.
Qed.

(** The product of a float in [[0, 1]] with 100: a mantissa [R'] at
    exponent [-k'] with [k' >= 46], at most 100 and within half a unit
    of the last place of the exact product. *)
Lemma mul_int_100_spec (R k : Z) :
  0 <= k -> 0 <= R <= 2 ^ k -> R <= 2 ^ 53 ->
  exists R' k',
    PyFloat.mul_int (float_of false R (- k)) 100
      = Ret (float_of false R' (- k')) /\
    46 <= k' /\ 0 <= R' <= 100 * 2 ^ k' /\ R' <= 2 ^ 53 /\
    - 2 ^ k <= 2 * (R' * 2 ^ k - 100 * R * 2 ^ k') <= 2 ^ k.
Proof.
  intros Hk HR H53. unfold PyFloat.mul_int. rewrite of_int_100.
  cbn [bind].
  pose proof (pow2_pos k Hk) as HK.
  destruct (Z.eq_dec R 0) as [-> | Rn0].
  { exists 0, 46. split; [reflexivity|]. repeat split; try lia. }
  destruct (float_of_finite R k Hk ltac:(lia) H53)
    as [mq [eq [j [Hf [Hmq [Heq [HRj [Hj Heq0]]]]]]]].
  rewrite Hf. cbn [SFmul xorb].
  set (M := Zpos (Z.to_pos mq * 7036874417766400)).
  assert (HM : M = mq * (100 * 2 ^ 46)).
  { subst M. rewrite Pos2Z.inj_mul, Z2Pos.id by lia. reflexivity. }
  assert (HM0 : 0 <= M) by (subst M; lia).
  destruct (binary_round_aux_spec false M (eq + -46) loc_Exact M 1 HM0
              (exact_represents M HM0))
    as [R' [Hres [HR1 [HR2 HR3]]]].
  set (n := Z.max 0 (fexp PyFloat.prec PyFloat.emax
                       (Zdigits2 M + (eq + -46)) - (eq + -46))) in *.
  pose proof (pow2_pos (- eq) ltac:(lia)) as HQ.
  pose proof (pow2_pos j ltac:(lia)) as HJ.
  assert (HKJ : 2 ^ k = 2 ^ j * 2 ^ (- eq)).
  { rewrite <- Z.pow_add_r by lia. f_equal. lia. }
  assert (HmqQ : mq <= 2 ^ (- eq)) by nia.
  assert (HdM : Zdigits2 M <= 53 - eq).
  { apply Zdigits2_le; [lia|]. split; [lia|].
    replace (53 - eq) with (- eq + 53) by lia.
    rewrite Z.pow_add_r, HM by lia.
    change (100 * 2 ^ 46) with 7036874417766400.
    change (2 ^ 53) with 9007199254740992. nia. }
  assert (Hn : 0 <= n <= - eq) by (subst n; rewrite fexp_eq; lia).
  exists R', (46 - eq - n).
  pose proof (pow2_pos n ltac:(lia)) as HA.
  pose proof (pow2_pos (46 - eq - n) ltac:(lia)) as HK'.
  assert (HAK : 2 ^ n * 2 ^ (46 - eq - n) = 2 ^ 46 * 2 ^ (- eq)).
  { rewrite <- !Z.pow_add_r by lia. f_equal. lia. }
  assert (HR0 : 0 <= R').
  { assert (0 <= M / 2 ^ n) by (apply Z.div_pos; lia). lia. }
  rewrite Z.mul_1_l in HR3.
  split.
  { f_equal. rewrite Hres. f_equal. lia. }
  split; [lia|].
  set (A := 2 ^ n) in *. set (K' := 2 ^ (46 - eq - n)) in *.
  set (Q := 2 ^ (- eq)) in *. set (J := 2 ^ j) in *.
  change (2 ^ 46) with 70368744177664 in *.
  split; [split; [exact HR0|]|].
  { assert (H1 : M <= 100 * (A * K')) by (rewrite HAK, HM; nia).
    assert (H2 : 2 * (R' * A) <= 2 * (100 * K' * A) + A) by lia.
    nia. }
  split; [exact HR2|].
  assert (HMK : M * (J * Q) = 100 * R * K' * A).
  { rewrite HM, HRj. fold J.
    replace (100 * (mq * J) * K' * A) with (100 * mq * J * (A * K')) by ring.
    rewrite HAK. ring. }
  rewrite HKJ.
  split; apply (Z.mul_le_mono_pos_l _ _ A HA); nia.
Qed.

(** From the two rounding errors to the integer part. [R / K] is the
    quotient, [R' / K'] the product, [K] and [K'] powers of two. *)
Lemma truncation_near_floor (c t R K R' K' : Z) :
  1 <= c <= t -> t < 2 ^ 44 ->
  2 ^ 52 <= K -> 2 ^ 46 <= K' ->
  - t <= 2 * (R * t - c * K) <= t ->
  - K <= 2 * (R' * K - 100 * R * K') <= K ->
  100 * c / t - 1 <= R' / K' <= 100 * c / t /\
  ((100 * c) mod t <> 0 -> R' / K' = 100 * c / t).
Proof.
  intros Hct Ht HK HK' HD HP.
  change (2 ^ 44) with 17592186044416 in Ht.
  change (2 ^ 52) with 4503599627370496 in HK.
  change (2 ^ 46) with 70368744177664 in HK'.
  pose proof (Z.div_mod (100 * c) t ltac:(lia)) as Hdm.
  pose proof (Z.mod_pos_bound (100 * c) t ltac:(lia)) as Hrho.
  set (F := 100 * c / t) in *. set (rho := (100 * c) mod t) in *.
  set (X := 2 * (R' * K) * t).
  set (S := 100 * K' * t + K * t).
  assert (HKK : 0 < K * K') by nia.
  assert (HS : S < K * K').
  { subst S.
    assert (100 * K' * t <= 100 * 17592186044416 * K') by nia.
    assert (4 * (100 * 17592186044416 * K') <= 2 * (K * K')) by nia.
    assert (K * t <= 17592186044416 * K) by nia.
    assert (4 * (17592186044416 * K) <= K * K') by nia.
    lia. }
  assert (HXup : X <= 2 * (100 * c) * (K * K') + S).
  { subst X S.
    assert (H1 : 2 * (R' * K) * t <= (200 * R * K' + K) * t)
      by (apply Z.mul_le_mono_nonneg_r; lia).
    assert (H2 : 100 * K' * (2 * (R * t)) <= 100 * K' * (2 * (c * K) + t))
      by (apply Z.mul_le_mono_nonneg_l; lia).
    lia. }
  assert (HXlo : 2 * (100 * c) * (K * K') - S <= X).
  { subst X S.
    assert (H1 : (200 * R * K' - K) * t <= 2 * (R' * K) * t)
      by (apply Z.mul_le_mono_nonneg_r; lia).
    assert (H2 : 100 * K' * (2 * (c * K) - t) <= 100 * K' * (2 * (R * t)))
      by (apply Z.mul_le_mono_nonneg_l; lia).
    lia. }
  rewrite Hdm in HXup, HXlo.
  assert (HKt : 0 < 2 * (K * t)) by nia.
  assert (EX : forall y, 2 * (K * t) * (K' * y) = 2 * (t * y) * (K * K'))
    by (intros; ring).
  assert (EX' : X = 2 * (K * t) * R') by (subst X; ring).
  assert (Hup : R' < K' * (F + 1)).
  { apply (Z.mul_lt_mono_pos_l (2 * (K * t))); [exact HKt|].
    rewrite <- EX', EX.
    assert (2 * (t * F + rho) * (K * K') + S
            < 2 * (t * (F + 1)) * (K * K')); [|lia].
    assert (2 * rho * (K * K') <= 2 * (t - 1) * (K * K'))
      by (apply Z.mul_le_mono_nonneg_r; lia).
    lia. }
  assert (Hlo : K' * (F - 1) <= R').
  { apply (Z.mul_le_mono_pos_l _ _ (2 * (K * t))); [exact HKt|].
    rewrite <- EX', EX.
    assert (2 * (t * (F - 1)) * (K * K')
            <= 2 * (t * F + rho) * (K * K') - S); [|lia].
    assert (0 <= 2 * rho * (K * K')) by nia.
    assert (2 * (K * K') <= 2 * t * (K * K'))
      by (apply Z.mul_le_mono_nonneg_r; lia).
    lia. }
  split.
  - split.
    + apply Z.div_le_lower_bound; lia.
    + assert (R' / K' < F + 1) by (apply Z.div_lt_upper_bound; lia). lia.
  - intros Hne.
    assert (Hlo' : K' * F <= R').
    { apply (Z.mul_le_mono_pos_l _ _ (2 * (K * t))); [exact HKt|].
      rewrite <- EX', EX.
      assert (2 * (t * F) * (K * K')
              <= 2 * (t * F + rho) * (K * K') - S); [|lia].
      assert (2 * (K * K') <= 2 * rho * (K * K'))
        by (apply Z.mul_le_mono_nonneg_r; lia).
      lia. }
    assert (F <= R' / K') by (apply Z.div_le_lower_bound; lia).
    assert (R' / K' < F + 1) by (apply Z.div_lt_upper_bound; lia).
    lia.
Qed.

(** C3, as stated, fails. At second 2 of a three-second track the bar
    is given 66; the nearest integer to 200 / 3 is 67. At second 29 of
    100 the bar is given 28, where the quotient is exactly 29. *)
Lemma progress_value_is_not_rounded :
  0 <= 2 <= 3 /\ 0 < 3 /\
  progress_value 2 3 = Ret 66 /\ spec_progress_value 2 3 = 67 /\
  progress_value 29 100 = Ret 28 /\ spec_progress_value 29 100 = 29.
Proof. vm_compute. repeat split; intros H; discriminate H. Qed.

(** The value of [int((c / t) * 100)] for [0 <= c <= t]. *)
Lemma progress_value_bounds (c t : Z) :
  0 <= c <= t -> 0 < t ->
  exists v,
    progress_value c t = Ret v /\
    0 <= v <= 100 /\
    (t < 2 ^ 44 ->
     100 * c / t - 1 <= v <= 100 * c / t /\
     ((100 * c) mod t <> 0 -> v = 100 * c / t)).
Proof.
  intros Hc Ht. unfold progress_value.
  destruct (Z.eq_dec c 0) as [-> | Hc0].
  { exists 0. split; [|split; [lia|]].
    - unfold PyFloat.int_truediv.
      take (t =? 0) false.
      take (t <? 0) false.
      reflexivity.
    - intros _. rewrite Z.mul_0_r, Z.div_0_l, Z.mod_0_l by lia.
      split; [lia|]. intros H; lia. }
  destruct (int_truediv_spec c t ltac:(lia))
    as [R [k [Hdiv [Hk [HR [HR53 [HD Hnormal]]]]]]].
  rewrite Hdiv. cbn [bind].
  destruct (mul_int_100_spec R k Hk HR HR53)
    as [R' [k' [Hmul [Hk' [HR' [HR'53 HP]]]]]].
  rewrite Hmul. cbn [bind].
  rewrite to_int_float_of by lia.
  pose proof (pow2_pos k' ltac:(lia)) as HK'.
  exists (R' / 2 ^ k'). split; [reflexivity|]. split.
  - split; [apply Z.div_pos; lia|].
    apply Z.div_le_upper_bound; lia.
  - intros Hsmall.
    assert (Ht1021 : t < 2 ^ 1021).
    { apply Z.lt_le_trans with (m := 2 ^ 44); [exact Hsmall|].
      apply Z.pow_le_mono_r; lia. }
    destruct (Hnormal Ht1021) as [HR52 Hk52].
    assert (HK52 : 2 ^ 52 <= 2 ^ k) by (apply Z.pow_le_mono_r; lia).
    assert (HK46 : 2 ^ 46 <= 2 ^ k') by (apply Z.pow_le_mono_r; lia).
    apply (truncation_near_floor c t R (2 ^ k) R' (2 ^ k'));
      assumption || lia.
Qed.

(** C3, amended. For a position read [c] with [0 <= c <= T] and
    [T > 0], the value the polling update hands to the bar is
    [int((c / T) * 100)]: the double-precision quotient, times 100 in
    double precision, cut toward zero, not rounded. The update raises
    no exception and the value lies in [[0, 100]] without any clamping.
    For [T < 2 ^ 44] it is the integer part of [100 * c / T], or one
    less; one less can happen only when [T] divides [100 * c]. *)
Theorem update_player_progress_value (s : MediaPlayer) :
  let c := Vlc.get_time (player s) / 1000 in
  let T := track_total_time s in
  0 <= c <= T -> 0 < T -> track_current_time s <= T - 1 ->
  exists v,
    progress_value c T = Ret v /\
    raised (update_player s) = None /\
    track_bar (state_of (update_player s)) = Some v /\
    0 <= v <= 100 /\
    (T < 2 ^ 44 ->
     100 * c / T - 1 <= v <= 100 * c / T /\
     ((100 * c) mod T <> 0 -> v = 100 * c / T)).
Proof.
  intros c T Hc HT Hstored.
  destruct (progress_value_bounds c T Hc HT) as [v [Hv [Hb Hf]]].
  exists v. split; [exact Hv|].
  unfold update_player. fold T.
  take (track_current_time s <=? T - 1) true.
  cbn [track_current_time track_total_time set_track_current_time].
  fold c T. rewrite Hv.
  split; [reflexivity|]. split; [reflexivity|]. split; assumption.
Qed.

Lemma update_player_progress_value_witness :
  exists v,
    progress_value 4 10 = Ret v /\
    track_bar (state_of (update_player ten_seconds)) = Some v /\
    v = 40.
Proof.
  assert (H1 : 0 <= Vlc.get_time (player ten_seconds) / 1000
               <= track_total_time ten_seconds)
    by (vm_compute; split; discriminate).
  assert (H2 : 0 < track_total_time ten_seconds) by reflexivity.
  assert (H3 : track_current_time ten_seconds
               <= track_total_time ten_seconds - 1)
    by (vm_compute; discriminate).
  destruct (update_player_progress_value ten_seconds H1 H2 H3)
    as [v [Hv [_ [Hbar [_ Hf]]]]].
  exists v. split; [exact Hv|]. split; [exact Hbar|].
  assert (H4 : track_total_time ten_seconds < 2 ^ 44)
    by (vm_compute; reflexivity).
  destruct (Hf H4) as [[Hlo Hhi] _].
  change (100 * (Vlc.get_time (player ten_seconds) / 1000)
          / track_total_time ten_seconds) with 40 in Hhi.
  assert (Hv40 : progress_value 4 10 = Ret 40) by (vm_compute; reflexivity).
  change (Vlc.get_time (player ten_seconds) / 1000) with 4 in Hv.
  change (track_total_time ten_seconds) with 10 in Hv.
  congruence.
Defined.

(** * Further properties of the controller *)

(** ** Transport: stop, play, pause, seek *)

(** X1. On a paused player whose timer is inactive, [play] followed by
    [pause] gives the state back; on a playing player whose timer is
    active, so does [pause] followed by [play]. *)
Theorem play_pause_round_trip (s : MediaPlayer) :
  (Vlc.state (player s) = Vlc.Paused -> track_timer s = false ->
   pause (play s) = s) /\
  (Vlc.state (player s) = Vlc.Playing -> track_timer s = true ->
   play (pause s) = s).
Proof.
  destruct s as [tr nm [md st tm rt] sp ct tt ti ttl cl tl bar sb].
  unfold play, pause. cbn.
  split; intros Hst Hti; subst; destruct md; reflexivity.
Qed.

Lemma play_pause_round_trip_witness :
  play (pause ten_seconds) = ten_seconds /\
  pause (play (pause ten_seconds)) = pause ten_seconds.
Proof.
  split.
  - exact (proj2 (play_pause_round_trip ten_seconds) eq_refl eq_refl).
  - exact (proj1 (play_pause_round_trip (pause ten_seconds))
             eq_refl eq_refl).
Defined.

Lemma seek_keeps_display (s : MediaPlayer) (seconds : Z) :
  track_current_time (seek s seconds) = track_current_time s /\
  track_bar (seek s seconds) = track_bar s /\
  track_current_time_label (seek s seconds) = track_current_time_label s.
Proof.
  destruct s as [tr nm [md st tm rt] sp ct tt ti ttl cl tl bar sb].
  unfold seek, Vlc.get_state.
  destruct st, md; repeat split; reflexivity.
Qed.

(** X2. [seek] changes the decoder and the timer only: the track, its
    name, the stored position, the bar, both labels, the duration and
    the speed stay as they were until the next tick. On a playing
    decoder the only call is [set_time] with the milliseconds asked
    for, and the timer is as it was. On any other decoder the calls
    are [play], [set_time] and [pause], in this order, and the timer
    ends inactive, whether it was active before or not. *)
Theorem seek_leaves_display (s : MediaPlayer) (seconds : Z) :
  track_current_time (seek s seconds) = track_current_time s /\
  track_bar (seek s seconds) = track_bar s /\
  track_current_time_label (seek s seconds) = track_current_time_label s /\
  track_total_time_label (seek s seconds) = track_total_time_label s /\
  track_total_time (seek s seconds) = track_total_time s /\
  track (seek s seconds) = track s /\
  track_name (seek s seconds) = track_name s /\
  track_title (seek s seconds) = track_title s /\
  track_speed (seek s seconds) = track_speed s /\
  (Vlc.state (player s) = Vlc.Playing ->
   player (seek s seconds) = Vlc.set_time (player s) (seconds * 1000) /\
   track_timer (seek s seconds) = track_timer s) /\
  (Vlc.state (player s) <> Vlc.Playing ->
   player (seek s seconds)
   = Vlc.pause (Vlc.set_time (Vlc.play (player s)) (seconds * 1000)) /\
   track_timer (seek s seconds) = false).
Proof.
  destruct s as [tr nm [md st tm rt] sp ct tt ti ttl cl tl bar sb].
  unfold seek, Vlc.get_state.
  destruct st, md; cbn;
    repeat split; try reflexivity; try discriminate; try congruence.
Qed.

(** The ten-second track playing, and after the decoder reached its
    end with the timer still running. *)
Lemma seek_leaves_display_witness :
  player (seek ten_seconds 7) = Vlc.set_time (player ten_seconds) 7000 /\
  track_timer (seek ten_seconds 7) = true /\
  track_timer (decoder_moves ten_seconds Vlc.Ended 10000) = true /\
  track_timer (seek (decoder_moves ten_seconds Vlc.Ended 10000) 7) = false.
Proof.
  pose proof (seek_leaves_display ten_seconds 7)
    as [_ [_ [_ [_ [_ [_ [_ [_ [_ [Hp _]]]]]]]]]].
  pose proof (seek_leaves_display
                (decoder_moves ten_seconds Vlc.Ended 10000) 7)
    as [_ [_ [_ [_ [_ [_ [_ [_ [_ [_ Hn]]]]]]]]]].
  assert (H1 : Vlc.state (player ten_seconds) = Vlc.Playing) by reflexivity.
  assert (H2 : Vlc.state (player (decoder_moves ten_seconds Vlc.Ended 10000))
               <> Vlc.Playing) by (simpl; discriminate).
  split; [exact (proj1 (Hp H1))|]. split; [exact (proj2 (Hp H1))|].
  split; [reflexivity|]. exact (proj2 (Hn H2)).
Defined.

(** ** The polling tick at the ends of a track *)

Lemma progress_value_full (t : Z) : 0 < t -> progress_value t t = Ret 100.
Proof.
  intros Ht. unfold progress_value.
  destruct (int_truediv_spec t t ltac:(lia))
    as [R [k [Hdiv [Hk [HR [HR53 [HD _]]]]]]].
  rewrite Hdiv. cbn [bind].
  destruct (mul_int_100_spec R k Hk HR HR53)
    as [R' [k' [Hmul [Hk' [HR' [HR'53 HP]]]]]].
  rewrite Hmul. cbn [bind].
  rewrite to_int_float_of by lia.
  pose proof (pow2_pos k Hk) as HK.
  pose proof (pow2_pos k' ltac:(lia)) as HK'.
  assert (ER : R = 2 ^ k) by nia.
  rewrite ER in HP.
  assert (ER' : R' = 100 * 2 ^ k') by nia.
  rewrite ER'. rewrite Z.div_mul by lia. reflexivity.
Qed.

(** X3. When a tick reads the end of the track ([T > 0] seconds), it
    shows 100 and stores [T]; the tick after it stops the player and
    resets the display, whatever the decoder reports by then. *)
Theorem tick_at_end_then_stop (s : MediaPlayer) :
  0 < track_total_time s ->
  track_current_time s <= track_total_time s - 1 ->
  Vlc.get_time (player s) / 1000 = track_total_time s ->
  exists s1,
    update_player s = Done s1 /\
    track_bar s1 = Some 100 /\
    track_current_time s1 = track_total_time s /\
    track_current_time_label s1 = format_time (track_total_time s) /\
    forall st t,
      update_player (decoder_moves s1 st t) =
      Done (stop (decoder_moves s1 st t)) /\
      track_current_time_label
        (state_of (update_player (decoder_moves s1 st t))) = "00:00".
Proof.
  intros HT Hst Hend. unfold update_player at 1.
  take (track_current_time s <=? track_total_time s - 1) true.
  cbn [track_current_time track_total_time set_track_current_time].
  rewrite Hend, (progress_value_full _ HT).
  eexists. split; [reflexivity|].
  cbn [track_bar track_current_time track_current_time_label
       set_track_current_time_label set_track_bar set_track_current_time].
  repeat split; try reflexivity.
  unfold update_player.
  cbn [decoder_moves set_player track_current_time track_total_time
       set_track_current_time_label set_track_bar set_track_current_time].
  take (track_total_time s <=? track_total_time s - 1) false.
  reflexivity.
  unfold update_player.
  cbn [decoder_moves set_player track_current_time track_total_time
       set_track_current_time_label set_track_bar set_track_current_time].
  take (track_total_time s <=? track_total_time s - 1) false.
  reflexivity.
Qed.

Lemma tick_at_end_then_stop_witness :
  exists s1,
    update_player (decoder_moves ten_seconds Vlc.Playing 10400) = Done s1 /\
    track_bar s1 = Some 100 /\
    update_player s1 = Done (stop s1).
Proof.
  set (s := decoder_moves ten_seconds Vlc.Playing 10400).
  assert (H1 : 0 < track_total_time s) by reflexivity.
  assert (H2 : track_current_time s <= track_total_time s - 1)
    by (vm_compute; discriminate).
  assert (H3 : Vlc.get_time (player s) / 1000 = track_total_time s)
    by reflexivity.
  destruct (tick_at_end_then_stop s H1 H2 H3)
    as [s1 [Hs1 [Hbar [_ [_ Hnext]]]]].
  exists s1. split; [exact Hs1|]. split; [exact Hbar|].
  pose proof (proj1 (Hnext (Vlc.state (player s1)) (Vlc.time (player s1))))
    as Hn.
  assert (E : decoder_moves s1 (Vlc.state (player s1)) (Vlc.time (player s1))
              = s1).
  { destruct s1 as [tr nm [md st tm rt] sp ct tt ti ttl cl tl bar sb].
    reflexivity. }
  rewrite E in Hn. exact Hn.
Defined.

(** X4. Without a duration ([T = 0], as before any load or after
    loading a clip shorter than a second) a tick never updates: with a
    stored position of 0 or more it stops, and with a negative stored
    position it stores the position read and leaves with
    [ZeroDivisionError], bar and label untouched. *)
Theorem update_player_without_duration (s : MediaPlayer) :
  track_total_time s = 0 ->
  (0 <= track_current_time s -> update_player s = Done (stop s)) /\
  (track_current_time s < 0 ->
   update_player s =
   Raised ZeroDivisionError
     (set_track_current_time s (Vlc.get_time (player s) / 1000))).
Proof.
  intros HT. unfold update_player. rewrite HT. split; intros H.
  - take (track_current_time s <=? 0 - 1) false. reflexivity.
  - take (track_current_time s <=? 0 - 1) true.
    cbn [track_current_time track_total_time set_track_current_time].
    rewrite HT. reflexivity.
Qed.

(** A run that reaches the second case: while [b.mp3] plays the decoder
    reports -1, a tick stores -1; the half-second [c.mp3] is loaded;
    the next tick divides by zero. *)
Lemma update_player_without_duration_witness :
  update_player init = Done (stop init) /\
  (let s := run demo_world init
              [LoadAudio None (Some "b.mp3") "b"; Play;
               Decoder Vlc.Playing (-1); UpdatePlayer;
               LoadAudio None (Some "c.mp3") "c"] in
   raised (update_player s) = Some ZeroDivisionError).
Proof.
  split.
  - exact (proj1 (update_player_without_duration init eq_refl)
             ltac:(simpl; lia)).
  - set (s := run demo_world init _).
    assert (HT : track_total_time s = 0) by (vm_compute; reflexivity).
    assert (Hc : track_current_time s < 0) by (vm_compute; reflexivity).
    cbv zeta.
    rewrite (proj2 (update_player_without_duration s HT) Hc).
    reflexivity.
Defined.

(** ** Floats: conversion, product and ceiling *)

Lemma iter_xO_value (d p : positive) :
  Zpos (Pos.iter xO p d) = Zpos p * 2 ^ Zpos d.
Proof.
  induction d as [| d IH] using Pos.peano_ind.
  - cbn [Pos.iter]. rewrite Pos2Z.inj_xO. change (2 ^ 1) with 2. lia.
  - rewrite Pos.iter_succ, Pos2Z.inj_xO, IH, Pos2Z.inj_succ, Z.pow_succ_r
      by lia. ring.
Qed.

Lemma Zdigits2_exact (m d : Z) :
  0 < d -> 2 ^ (d - 1) <= m < 2 ^ d -> Zdigits2 m = d.
Proof.
  intros Hd [Hlo Hhi].
  pose proof (Zdigits2_le m d ltac:(lia)
                ltac:(pose proof (pow2_pos (d - 1) ltac:(lia)); lia)).
  pose proof (Zdigits2_ge m (d - 1) ltac:(lia) Hlo). lia.
Qed.

(** [float(t)] for [0 < t < 2 ^ 53] is exact: a mantissa of 53 bits
    with a non-positive exponent. *)
Lemma of_int_spec (t : Z) :
  0 < t < 2 ^ 53 ->
  exists m2 e2,
    PyFloat.of_int t = Ret (S754_finite false m2 e2) /\
    2 ^ 52 <= Zpos m2 < 2 ^ 53 /\ -52 <= e2 <= 0 /\
    Zpos m2 = t * 2 ^ (- e2).
Proof.
  intros Ht. destruct t as [| p | p]; try lia.
  unfold PyFloat.of_int, binary_normalize, binary_round.
  pose proof (Zdigits2_bounds (Zpos p) ltac:(lia)) as Hd.
  cbn [Zdigits2] in Hd. set (d := Zpos (digits2_pos p)) in *.
  assert (Hd53 : 1 <= d <= 53).
  { split; [subst d; lia|].
    assert (H : 2 ^ (d - 1) < 2 ^ 53) by lia.
    apply Z.pow_lt_mono_r_iff in H; lia. }
  rewrite Z.add_0_r, fexp_eq.
  replace (Z.max (d - 53) (-1074)) with (d - 53) by lia.
  assert (Hsh : exists mz,
             shl_align p 0 (d - 53) = (mz, d - 53) /\
             Zpos mz = Zpos p * 2 ^ (53 - d)).
  { unfold shl_align. rewrite Z.sub_0_r.
    destruct (d - 53) as [| q | q] eqn:E; try lia.
    - exists p. split; [reflexivity|].
      replace (53 - d) with 0 by lia. rewrite Z.pow_0_r. lia.
    - exists (Pos.iter xO p q). split; [reflexivity|].
      rewrite iter_xO_value. f_equal. f_equal. lia. }
  destruct Hsh as [mz [Hsh Hmz]]. rewrite Hsh.
  assert (Hmzb : 2 ^ 52 <= Zpos mz < 2 ^ 53).
  { rewrite Hmz.
    pose proof (pow2_pos (53 - d) ltac:(lia)) as Hp.
    replace (2 ^ 52) with (2 ^ (d - 1) * 2 ^ (53 - d))
      by (rewrite <- Z.pow_add_r by lia; f_equal; lia).
    replace (2 ^ 53) with (2 ^ d * 2 ^ (53 - d))
      by (rewrite <- Z.pow_add_r by lia; f_equal; lia).
    nia. }
  destruct (binary_round_aux_spec false (Zpos mz) (d - 53) loc_Exact
              (Zpos mz) 1 ltac:(lia)
              (exact_represents (Zpos mz) ltac:(lia)))
    as [R [Hres [_ [_ HR3]]]].
  rewrite (Zdigits2_exact (Zpos mz) 53 ltac:(lia) Hmzb) in Hres, HR3.
  rewrite fexp_eq in Hres, HR3.
  replace (Z.max 0 (Z.max (53 + (d - 53) - 53) (-1074) - (d - 53)))
    with 0 in Hres, HR3 by lia.
  rewrite Z.pow_0_r in HR3.
  assert (ER : R = Zpos mz) by lia.
  rewrite Hres, ER. unfold float_of.
  take (Zpos mz =? 0) false. take (Zpos mz <? 2 ^ 53) true.
  take (d - 53 + 0 <=? 971) true.
  cbn [PyFloat.finite_or_overflow Z.to_pos].
  exists mz, (d - 53 + 0). split; [reflexivity|].
  split; [exact Hmzb|]. split; [lia|].
  rewrite Hmz. f_equal. f_equal. lia.
Qed.

(** The product of a float in [[0, 1]] with a positive float [m2 * 2 ^
    e2]: at most that float, and within half a unit of the last place
    of the exact product. *)
Lemma mul_float_spec (R k : Z) (m2 : positive) (e2 : Z) :
  0 <= k -> 0 <= R <= 2 ^ k -> R <= 2 ^ 53 ->
  Zpos m2 < 2 ^ 53 -> -1074 <= e2 <= 0 ->
  exists R' k',
    SFmul PyFloat.prec PyFloat.emax
      (float_of false R (- k)) (S754_finite false m2 e2)
      = float_of false R' (- k') /\
    0 <= k' /\ 0 <= k' + e2 /\
    0 <= R' <= Zpos m2 * 2 ^ (k' + e2) /\ R' <= 2 ^ 53 /\
    - 2 ^ k <= 2 * (R' * 2 ^ k - R * Zpos m2 * 2 ^ (k' + e2)) <= 2 ^ k.
Proof.
  intros Hk HR H53 Hm2 He2.
  pose proof (pow2_pos k Hk) as HK.
  destruct (Z.eq_dec R 0) as [-> | Rn0].
  { exists 0, (- e2). split; [reflexivity|].
    replace (- e2 + e2) with 0 by lia. rewrite Z.pow_0_r.
    repeat split; lia. }
  destruct (float_of_finite R k Hk ltac:(lia) H53)
    as [mq [eq [j [Hf [Hmq [Heq [HRj [Hj Heq0]]]]]]]].
  rewrite Hf. cbn [SFmul xorb].
  set (M := Zpos (Z.to_pos mq * m2)).
  assert (HM : M = mq * Zpos m2).
  { subst M. rewrite Pos2Z.inj_mul, Z2Pos.id by lia. reflexivity. }
  assert (HM0 : 0 <= M) by (subst M; lia).
  destruct (binary_round_aux_spec false M (eq + e2) loc_Exact M 1 HM0
              (exact_represents M HM0))
    as [R' [Hres [HR1 [HR2 HR3]]]].
  set (n := Z.max 0 (fexp PyFloat.prec PyFloat.emax
                       (Zdigits2 M + (eq + e2)) - (eq + e2))) in *.
  pose proof (pow2_pos (- eq) ltac:(lia)) as HQ.
  pose proof (pow2_pos j ltac:(lia)) as HJ.
  assert (HKJ : 2 ^ k = 2 ^ j * 2 ^ (- eq)).
  { rewrite <- Z.pow_add_r by lia. f_equal. lia. }
  assert (HmqQ : mq <= 2 ^ (- eq)) by nia.
  assert (HdM : Zdigits2 M <= 53 - eq).
  { apply Zdigits2_le; [lia|]. split; [lia|].
    replace (53 - eq) with (- eq + 53) by lia.
    rewrite Z.pow_add_r, HM by lia. nia. }
  assert (Hn : 0 <= n <= - eq) by (subst n; rewrite fexp_eq; lia).
  exists R', (- e2 - eq - n).
  pose proof (pow2_pos n ltac:(lia)) as HA.
  replace (- e2 - eq - n + e2) with (- eq - n) by lia.
  pose proof (pow2_pos (- eq - n) ltac:(lia)) as HW.
  assert (HAW : 2 ^ n * 2 ^ (- eq - n) = 2 ^ (- eq)).
  { rewrite <- Z.pow_add_r by lia. f_equal. lia. }
  assert (HR0 : 0 <= R').
  { assert (0 <= M / 2 ^ n) by (apply Z.div_pos; lia). lia. }
  rewrite Z.mul_1_l in HR3.
  split.
  { rewrite Hres. f_equal. lia. }
  split; [lia|]. split; [lia|].
  set (A := 2 ^ n) in *. set (W := 2 ^ (- eq - n)) in *.
  set (Q := 2 ^ (- eq)) in *. set (J := 2 ^ j) in *.
  split; [split; [exact HR0|]|].
  { assert (H1 : M <= Zpos m2 * (A * W)) by (rewrite HAW, HM; nia).
    assert (H2 : 2 * (R' * A) <= 2 * (Zpos m2 * W * A) + A) by lia.
    nia. }
  split; [exact HR2|].
  assert (HMK : M * (J * Q) = R * Zpos m2 * W * A).
  { rewrite HM, HRj. fold J.
    replace (mq * J * Zpos m2 * W * A) with (mq * J * Zpos m2 * (A * W))
      by ring.
    rewrite HAW. ring. }
  rewrite HKJ.
  split; apply (Z.mul_le_mono_pos_l _ _ A HA); nia.
Qed.

(** Ceiling of a rounded, non-negative float with exponent [-k]. *)
Lemma ceil_float_of (R k : Z) :
  0 <= k -> 0 <= R <= 2 ^ 53 ->
  PyFloat.ceil (float_of false R (- k)) = Ret (ceil_div R (2 ^ k)).
Proof.
  intros Hk HR. unfold float_of, ceil_div.
  pose proof (pow2_pos k Hk) as HK.
  destruct (Z.eqb_spec R 0) as [-> | Rn0].
  { cbn [PyFloat.ceil]. rewrite Z.mod_0_l, Z.div_0_l by lia. reflexivity. }
  destruct (Z.ltb_spec R (2 ^ 53)) as [Rlt | Rge].
  - take (- k <=? 971) true.
    cbn [PyFloat.ceil]. f_equal.
    unfold PyFloat.trunc_pos, PyFloat.has_fraction.
    rewrite Z2Pos.id by lia.
    destruct k as [| p | p]; cbn [Z.opp]; try lia.
    + rewrite Z.pow_0_r, Z.mod_1_r, Z.div_1_r. reflexivity.
    + rewrite Z.shiftr_div_pow2 by lia.
      destruct (R mod 2 ^ Zpos p =? 0); reflexivity.
  - assert (RE : R = 2 ^ 53) by lia. subst R.
    take (- k + 1 <=? 971) true.
    cbn [PyFloat.ceil]. f_equal.
    unfold PyFloat.trunc_pos, PyFloat.has_fraction.
    rewrite Z2Pos.id by (apply pow2_pos; lia).
    destruct (Z.eq_dec k 0) as [-> | Hk0]; [reflexivity|].
    destruct (Z.eq_dec k 1) as [-> | Hk1]; [reflexivity|].
    destruct (- k + 1) as [| p | p] eqn:Ek; try lia.
    rewrite Z.shiftr_div_pow2 by lia.
    replace (Zpos p) with (k - 1) by lia.
    pose proof (pow2_pos (k - 1) ltac:(lia)) as HK1.
    assert (E2k : 2 ^ k = 2 * 2 ^ (k - 1)).
    { rewrite (pow2_split k 1) by lia. reflexivity. }
    change (2 ^ 53) with (2 * 2 ^ 52). rewrite E2k.
    rewrite Z.mul_mod_distr_l, Z.div_mul_cancel_l by lia.
    destruct (Z.eqb_spec (2 ^ 52 mod 2 ^ (k - 1)) 0) as [E | E].
    + rewrite E. reflexivity.
    + cbn [negb]. take (2 * (2 ^ 52 mod 2 ^ (k - 1)) =? 0) false.
      reflexivity.
Qed.

Lemma ceil_div_le (a b t : Z) :
  0 < b -> 0 <= a <= t * b -> 0 <= ceil_div a b <= t.
Proof.
  intros Hb Ha. unfold ceil_div.
  pose proof (Z.div_mod a b ltac:(lia)) as Hdm.
  pose proof (Z.mod_pos_bound a b Hb) as Hr.
  assert (0 <= a / b) by (apply Z.div_pos; lia).
  destruct (Z.eqb_spec (a mod b) 0) as [E | E]; nia.
Qed.

Lemma add_zero_float_of (R k : Z) :
  0 <= k ->
  SFadd PyFloat.prec PyFloat.emax (float_of false R (- k)) (S754_zero false)
  = float_of false R (- k).
Proof.
  intros Hk. unfold float_of.
  destruct (R =? 0); [reflexivity|].
  destruct (R <? 2 ^ 53).
  - take (- k <=? 971) true. reflexivity.
  - take (- k + 1 <=? 971) true. reflexivity.
Qed.

(** ** A click on the progress bar *)

Lemma of_int_0 : PyFloat.of_int 0 = Ret (S754_zero false).
Proof. reflexivity. Qed.

Lemma int_truediv_0 (w : Z) :
  0 < w -> PyFloat.int_truediv 0 w = Ret (S754_zero false).
Proof.
  intros Hw. unfold PyFloat.int_truediv.
  take (w =? 0) false. take (w <? 0) false. reflexivity.
Qed.

(** Within the bar, the value computed from a click is the progress
    value of the same fraction: adding the minimum 0 changes nothing. *)
Lemma clicked_value_progress (x w : Z) :
  0 <= x <= w -> 0 < w -> clicked_value x w = progress_value x w.
Proof.
  intros Hx Hw. unfold clicked_value, progress_value.
  change (bar_maximum - bar_minimum) with 100.
  change bar_minimum with 0.
  destruct (Z.eq_dec x 0) as [-> | Hx0].
  { rewrite (int_truediv_0 w Hw). reflexivity. }
  destruct (int_truediv_spec x w ltac:(lia))
    as [R [k [Hdiv [Hk [HR [HR53 _]]]]]].
  rewrite Hdiv. cbn [bind].
  destruct (mul_int_100_spec R k Hk HR HR53)
    as [R' [k' [Hmul [Hk' _]]]].
  rewrite Hmul. cbn [bind].
  unfold PyFloat.add_int. rewrite of_int_0. cbn [bind].
  rewrite add_zero_float_of by lia. reflexivity.
Qed.

Lemma mul_zero_l (g : PyFloat.float) :
  (exists m e, g = S754_finite false m e) \/ g = S754_zero false ->
  SFmul PyFloat.prec PyFloat.emax (S754_zero false) g = S754_zero false.
Proof. intros [[m [e ->]] | ->]; reflexivity. Qed.

(** The second an accepted bar value stands for: between 0 and the
    duration, 0 for the value 0 and the duration for the value 100. *)
Lemma clicked_time_range (v t : Z) :
  0 <= v <= 100 -> 0 <= t < 2 ^ 53 ->
  exists u,
    clicked_time v t = Ret u /\ 0 <= u <= t /\
    (v = 0 -> u = 0) /\ (v = 100 -> u = t).
Proof.
  intros Hv Ht. unfold clicked_time.
  assert (Hgt : t = 0 \/ 0 < t) by lia.
  destruct (Z.eq_dec v 0) as [-> | Hv0].
  { rewrite (int_truediv_0 100 ltac:(lia)). cbn [bind].
    unfold PyFloat.mul_int.
    destruct Hgt as [-> | Hpos].
    - rewrite of_int_0. cbn. exists 0. repeat split; lia.
    - destruct (of_int_spec t ltac:(lia)) as [m2 [e2 [Hof _]]].
      rewrite Hof. cbn. exists 0. repeat split; lia. }
  destruct (int_truediv_spec v 100 ltac:(lia))
    as [R [k [Hdiv [Hk [HR [HR53 [HD Hnormal]]]]]]].
  rewrite Hdiv. cbn [bind]. unfold PyFloat.mul_int.
  pose proof (pow2_pos k Hk) as HK.
  destruct Hgt as [-> | Hpos].
  - rewrite of_int_0. cbn [bind].
    destruct (Hnormal ltac:(vm_compute; reflexivity)) as [HR52 _].
    pose proof (pow2_pos 52 ltac:(lia)) as H52.
    destruct (float_of_finite R k Hk ltac:(lia) HR53)
      as [mq [eq [j [Hf _]]]].
    rewrite Hf. cbn. exists 0. repeat split; lia.
  - destruct (of_int_spec t ltac:(lia))
      as [m2 [e2 [Hof [Hm2 [He2 Hm2t]]]]].
    rewrite Hof. cbn [bind].
    destruct (mul_float_spec R k m2 e2 Hk HR HR53 ltac:(lia) ltac:(lia))
      as [R' [k' [Hmul [Hk' [Hke [HR' [HR'53 HP]]]]]]].
    rewrite Hmul, ceil_float_of by lia.
    pose proof (pow2_pos k' Hk') as HK'.
    pose proof (pow2_pos (- e2) ltac:(lia)) as HE.
    assert (HW : Zpos m2 * 2 ^ (k' + e2) = t * 2 ^ k').
    { rewrite Hm2t, <- Z.mul_assoc, <- Z.pow_add_r by lia.
      f_equal. f_equal. lia. }
    rewrite <- Z.mul_assoc, HW in HP. rewrite HW in HR'.
    exists (ceil_div R' (2 ^ k')). split; [reflexivity|].
    split; [apply ceil_div_le; lia|]. split; [lia|].
    intros ->.
    assert (ER : R = 2 ^ k) by nia.
    rewrite ER in HP.
    assert (ER' : R' = t * 2 ^ k') by nia.
    unfold ceil_div. rewrite ER', Z.mod_mul, Z.div_mul by lia.
    reflexivity.
Qed.

Lemma progress_value_0 (w : Z) : 0 < w -> progress_value 0 w = Ret 0.
Proof.
  intros Hw. unfold progress_value. rewrite (int_truediv_0 w Hw).
  reflexivity.
Qed.

Lemma track_bar_clicked_done (s : MediaPlayer) (x width v u : Z) :
  clicked_value x width = Ret v ->
  clicked_time v (track_total_time s) = Ret u ->
  track_bar_clicked s x width =
  Done (seek (set_track_current_time_label
                (set_track_bar (set_track_current_time s u) (Some v))
                (format_time u)) u).
Proof.
  intros Hv Hu. unfold track_bar_clicked. rewrite Hv, Hu. reflexivity.
Qed.

(** X5. A click inside a shown bar ([0 <= x <= width], [width > 0]) on
    a track of [T < 2 ^ 53] seconds never raises: the bar gets a value
    in [[0, 100]], the stored position a second in [[0, T]], the label
    its text, and the decoder is sent to that second. The left edge
    gives 0 and second 0, the right edge 100 and second [T]. *)
Theorem track_bar_clicked_in_range (s : MediaPlayer) (x width : Z) :
  0 <= x <= width -> 0 < width -> 0 <= track_total_time s < 2 ^ 53 ->
  exists v u,
    raised (track_bar_clicked s x width) = None /\
    track_bar (state_of (track_bar_clicked s x width)) = Some v /\
    track_current_time (state_of (track_bar_clicked s x width)) = u /\
    track_current_time_label (state_of (track_bar_clicked s x width))
      = format_time u /\
    decoder_time (state_of (track_bar_clicked s x width)) = u * 1000 /\
    0 <= v <= 100 /\ 0 <= u <= track_total_time s /\
    (x = 0 -> v = 0 /\ u = 0) /\
    (x = width -> v = 100 /\ u = track_total_time s).
Proof.
  intros Hx Hw HT.
  destruct (progress_value_bounds x width Hx Hw) as [v [Hv [Hvb _]]].
  destruct (clicked_time_range v (track_total_time s) Hvb HT)
    as [u [Hu [Hub [Hu0 Hu100]]]].
  exists v, u.
  rewrite (track_bar_clicked_done s x width v u)
    by (rewrite ?clicked_value_progress; assumption).
  cbn [raised state_of].
  set (s0 := set_track_current_time_label
               (set_track_bar (set_track_current_time s u) (Some v))
               (format_time u)).
  destruct (seek_keeps_display s0 u) as [E1 [E2 E3]].
  rewrite E1, E2, E3, seek_decoder_time.
  split; [reflexivity|]. split; [reflexivity|]. split; [reflexivity|].
  split; [reflexivity|]. split; [reflexivity|].
  split; [exact Hvb|]. split; [exact Hub|]. split.
  - intros ->. rewrite (progress_value_0 width Hw) in Hv.
    assert (v = 0) by congruence. split; [assumption | auto].
  - intros ->. rewrite (progress_value_full width Hw) in Hv.
    assert (v = 100) by congruence. split; [assumption | auto].
Qed.

Lemma track_bar_clicked_in_range_witness :
  exists v u,
    track_bar (state_of (track_bar_clicked ten_seconds 150 200)) = Some v /\
    track_current_time (state_of (track_bar_clicked ten_seconds 150 200)) = u /\
    0 <= v <= 100 /\ 0 <= u <= 10.
Proof.
  assert (H1 : 0 <= 150 <= 200) by lia.
  assert (H2 : 0 < 200) by lia.
  assert (H3 : 0 <= track_total_time ten_seconds < 2 ^ 53)
    by (vm_compute; split; [discriminate | reflexivity]).
  destruct (track_bar_clicked_in_range ten_seconds 150 200 H1 H2 H3)
    as [v [u [_ [Hb [Hc [_ [_ [Hv [Hu _]]]]]]]]].
  exists v, u. split; [exact Hb|]. split; [exact Hc|].
  split; [exact Hv | exact Hu].
Defined.

(** ** Time labels *)

Lemma split_at_colon (a a' b b' : string) :
  PyStr.all_digits a = true -> PyStr.all_digits a' = true ->
  a ++ String ":" b = a' ++ String ":" b' -> a = a' /\ b = b'.
Proof.
  revert a'. induction a as [| c a IH]; intros [| c' a'] Ha Ha' E;
    cbn in *.
  - injection E as E. split; [reflexivity | exact E].
  - injection E as Ec E. subst c'. cbn in Ha'. discriminate Ha'.
  - injection E as Ec E. subst c. cbn in Ha. discriminate Ha.
  - injection E as Ec E. subst c'.
    apply andb_true_iff in Ha. apply andb_true_iff in Ha'.
    destruct (IH a' (proj2 Ha) (proj2 Ha') E) as [-> ->].
    split; reflexivity.
Qed.

(** X6. Two different non-negative times never get the same label. *)
Theorem format_time_injective (s1 s2 : Z) :
  0 <= s1 -> 0 <= s2 -> format_time s1 = format_time s2 -> s1 = s2.
Proof.
  intros H1 H2 E. unfold format_time in E. cbv zeta in E.
  assert (Hm1 : 0 <= s1 / 60) by (apply Z.div_pos; lia).
  assert (Hm2 : 0 <= s2 / 60) by (apply Z.div_pos; lia).
  pose proof (Z.mod_pos_bound s1 60 ltac:(lia)) as Hx1.
  pose proof (Z.mod_pos_bound s2 60 ltac:(lia)) as Hx2.
  destruct (format_02_nonneg (s1 / 60) Hm1) as [A1 [_ V1]].
  destruct (format_02_nonneg (s2 / 60) Hm2) as [A2 [_ V2]].
  destruct (format_02_nonneg (s1 mod 60) (proj1 Hx1)) as [_ [_ W1]].
  destruct (format_02_nonneg (s2 mod 60) (proj1 Hx2)) as [_ [_ W2]].
  destruct (split_at_colon _ _ _ _ A1 A2 E) as [Em Es].
  rewrite Em in V1. rewrite Es in W1.
  assert (Eq1 : s1 / 60 = s2 / 60) by congruence.
  assert (Eq2 : s1 mod 60 = s2 mod 60) by congruence.
  pose proof (Z.div_mod s1 60 ltac:(lia)).
  pose proof (Z.div_mod s2 60 ltac:(lia)). lia.
Qed.

Lemma format_time_injective_witness : 4503 = 4503.
Proof.
  assert (H1 : 0 <= 4503) by lia.
  exact (format_time_injective 4503 4503 H1 H1 eq_refl).
Defined.

(** * Further properties of the application *)

(** ** Splitting strings *)

Lemma str_split_not_nil (sep : ascii) (s : string) : str_split sep s <> [].
Proof.
  induction s as [| c s IH]; cbn; [discriminate|].
  destruct (Ascii.eqb c sep); [discriminate|].
  destruct (str_split sep s); discriminate.
Qed.

Lemma str_split_app (sep : ascii) (a b : string) :
  str_split sep (a ++ String sep b)
  = (str_split sep a ++ str_split sep b)%list.
Proof.
  induction a as [| c a IH]; cbn.
  - rewrite Ascii.eqb_refl. reflexivity.
  - rewrite IH. destruct (Ascii.eqb c sep); [reflexivity|].
    pose proof (str_split_not_nil sep a) as Hne.
    destruct (str_split sep a) as [| p ps]; [contradiction|]. reflexivity.
Qed.

Lemma str_split_without (sep : ascii) (s : string) :
  has_char sep s = false -> str_split sep s = [s].
Proof.
  induction s as [| c s IH]; cbn; intros H; [reflexivity|].
  apply orb_false_iff in H. destruct H as [Hc Hs].
  rewrite Hc, (IH Hs). reflexivity.
Qed.

Lemma has_char_app (c : ascii) (a b : string) :
  has_char c (a ++ b) = has_char c a || has_char c b.
Proof.
  induction a as [| x a IH]; cbn; [reflexivity|].
  rewrite IH, orb_assoc. reflexivity.
Qed.

(** A string that has the separator, cut at its last occurrence. *)
Lemma cut_at_last (sep : ascii) (s : string) :
  has_char sep s = true ->
  exists a b, s = a ++ String sep b /\ has_char sep b = false.
Proof.
  induction s as [| c s IH]; cbn; intros H; [discriminate|].
  destruct (has_char sep s) eqn:Hs.
  - destruct (IH eq_refl) as [a [b [-> Hb]]].
    exists (String c a), b. split; [reflexivity | exact Hb].
  - rewrite orb_false_r in H. apply Ascii.eqb_eq in H. subst c.
    exists "", s. split; [reflexivity | exact Hs].
Qed.

(** Every piece is free of the separator, and of any character the
    whole string is free of. *)
Lemma str_split_pieces (sep : ascii) (s piece : string) :
  In piece (str_split sep s) ->
  has_char sep piece = false /\
  forall c, has_char c s = false -> has_char c piece = false.
Proof.
  revert piece. induction s as [| x s IH]; cbn; intros piece Hin.
  - destruct Hin as [<- | []]. split; auto.
  - destruct (Ascii.eqb x sep) eqn:Ex.
    + destruct Hin as [<- | Hin].
      * split; [reflexivity | auto].
      * destruct (IH piece Hin) as [H1 H2]. split; [exact H1|].
        intros c Hc. apply orb_false_iff in Hc. apply H2, Hc.
    + pose proof (str_split_not_nil sep s) as Hne.
      destruct (str_split sep s) as [| p ps]; [contradiction|].
      destruct Hin as [<- | Hin].
      * destruct (IH p (or_introl eq_refl)) as [H1 H2]. split.
        -- cbn. rewrite Ex, H1. reflexivity.
        -- intros c Hc. apply orb_false_iff in Hc. cbn.
           rewrite (proj1 Hc), (H2 c (proj2 Hc)). reflexivity.
      * destruct (IH piece (or_intror Hin)) as [H1 H2]. split; [exact H1|].
        intros c Hc. apply orb_false_iff in Hc. apply H2, Hc.
Qed.

Lemma from_end_app_last {A : Type} (l : list A) (x : A) :
  from_end (l ++ [x])%list 0 = Some x /\
  forall k, from_end (l ++ [x])%list (S k) = from_end l k.
Proof.
  unfold from_end. rewrite rev_app_distr. cbn. split; reflexivity.
Qed.

Lemma from_end_In {A : Type} (l : list A) (k : nat) (x : A) :
  from_end l k = Some x -> In x l.
Proof.
  unfold from_end. intros H. apply nth_error_In in H.
  apply in_rev. exact H.
Qed.

Lemma from_end_last {A : Type} (l : list A) (d : A) :
  l <> [] -> from_end l 0 = Some (last l d).
Proof.
  intros Hne. destruct (exists_last Hne) as [l' [x ->]].
  rewrite last_last. apply from_end_app_last.
Qed.

Lemma from_end_app {A : Type} (l l' : list A) (d : A) :
  l' <> [] -> from_end (l ++ l')%list 0 = Some (last l' d).
Proof.
  intros Hne. destruct (exists_last Hne) as [m [x ->]].
  rewrite last_last, app_assoc. apply from_end_app_last.
Qed.

Lemma last_piece_without (sep : ascii) (s : string) :
  has_char sep s = false -> last_piece sep s = s.
Proof.
  intros H. unfold last_piece. rewrite (str_split_without sep s H).
  reflexivity.
Qed.

Lemma last_piece_after (sep : ascii) (a b : string) :
  last_piece sep (a ++ String sep b) = last_piece sep b.
Proof.
  unfold last_piece. rewrite str_split_app.
  pose proof (str_split_not_nil sep b) as Hne.
  destruct (exists_last Hne) as [m [x E]]. rewrite E.
  rewrite app_assoc, !last_last. reflexivity.
Qed.

Lemma append_assoc (a b c : string) : (a ++ b) ++ c = a ++ (b ++ c).
Proof. induction a as [| x a IH]; cbn; [reflexivity|]. rewrite IH. reflexivity. Qed.

Lemma last_piece_app (sep : ascii) (a b : string) :
  has_char sep b = false ->
  last_piece sep (a ++ b) = last_piece sep a ++ b.
Proof.
  intros Hb. destruct (has_char sep a) eqn:Ha.
  - destruct (cut_at_last sep a Ha) as [a1 [a2 [-> Ha2]]].
    rewrite append_assoc. cbn [append].
    rewrite !last_piece_after.
    rewrite !last_piece_without; [reflexivity | exact Ha2 |].
    rewrite has_char_app, Ha2, Hb. reflexivity.
  - rewrite !last_piece_without; [reflexivity | exact Ha |].
    rewrite has_char_app, Ha, Hb. reflexivity.
Qed.

Lemma from_end_last_piece (sep : ascii) (s : string) :
  from_end (str_split sep s) 0 = Some (last_piece sep s).
Proof. apply from_end_last, str_split_not_nil. Qed.

(** ** The track name of a converted PDF *)

(** X7. For a path made of a directory part that is empty or ends with
    a backslash, a stem without dot or backslash, and an extension
    without dot, the track name is the stem. *)
Theorem track_name_of_stem (dir stem ext : string) :
  (dir = "" \/ exists d, dir = d ++ "\") ->
  has_char "." stem = false -> has_char "\" stem = false ->
  has_char "." ext = false ->
  track_name_of (dir ++ stem ++ "." ++ ext) = Some stem.
Proof.
  intros Hdir Hs1 Hs2 He. unfold track_name_of.
  replace (dir ++ stem ++ "." ++ ext) with ((dir ++ stem) ++ String "." ext)
    by (rewrite append_assoc; reflexivity).
  rewrite str_split_app, (str_split_without "." ext He).
  destruct (from_end_app_last (str_split "." (dir ++ stem)) ext) as [_ H1].
  rewrite H1, from_end_last_piece, (last_piece_app "." dir stem Hs1).
  rewrite from_end_last_piece, (last_piece_app "\" _ stem Hs2).
  f_equal.
  destruct Hdir as [-> | [d ->]].
  - reflexivity.
  - rewrite (last_piece_app "." d "\" eq_refl).
    change (last_piece "." d ++ "\") with (last_piece "." d ++ String "\" "").
    rewrite last_piece_after. reflexivity.
Qed.

Lemma track_name_of_stem_witness :
  track_name_of "C:\docs\book.pdf" = Some "book".
Proof.
  assert (Hd : "C:\docs\" = "" \/ exists d, "C:\docs\" = d ++ "\")
    by (right; exists "C:\docs"; reflexivity).
  exact (track_name_of_stem "C:\docs\" "book" "pdf" Hd eq_refl eq_refl
           eq_refl).
Defined.

(** X8. The track name exists exactly when the path has a dot, and it
    never contains a dot or a backslash. It is what stands between the
    last two dots, after the last backslash there: everything before
    the last but one dot is dropped, and a path written with forward
    slashes keeps its directories. *)
Theorem track_name_of_shape (path : string) :
  (track_name_of path = None <-> has_char "." path = false) /\
  (forall name, track_name_of path = Some name ->
     has_char "." name = false /\ has_char "\" name = false) /\
  (forall before part ext,
     path = before ++ "." ++ part ++ "." ++ ext ->
     has_char "." part = false -> has_char "." ext = false ->
     track_name_of path = Some (last_piece "\" part)) /\
  (forall part ext,
     path = part ++ "." ++ ext ->
     has_char "." part = false -> has_char "." ext = false ->
     has_char "\" part = false ->
     track_name_of path = Some part).
Proof.
  split; [|split; [|split]]; cycle 2.
  - intros before part ext -> Hp He. unfold track_name_of.
    replace (before ++ "." ++ part ++ "." ++ ext)
      with ((before ++ String "." part) ++ String "." ext)
      by (rewrite append_assoc; reflexivity).
    rewrite str_split_app, (str_split_without "." ext He).
    destruct (from_end_app_last (str_split "." (before ++ String "." part))
                ext) as [_ H1].
    rewrite H1, from_end_last_piece, last_piece_after.
    rewrite (last_piece_without "." part Hp).
    apply from_end_last_piece.
  - intros part ext -> Hp He Hb. unfold track_name_of.
    change (part ++ "." ++ ext) with (part ++ String "." ext).
    rewrite str_split_app, (str_split_without "." ext He).
    destruct (from_end_app_last (str_split "." part) ext) as [_ H1].
    rewrite H1, from_end_last_piece, (last_piece_without "." part Hp).
    rewrite from_end_last_piece, (last_piece_without "\" part Hb).
    reflexivity.
  - unfold track_name_of. split.
    + intros H. destruct (has_char "." path) eqn:Hd; [|reflexivity].
      destruct (cut_at_last "." path Hd) as [a [b [-> Hb]]].
      rewrite str_split_app, (str_split_without "." b Hb) in H.
      destruct (from_end_app_last (str_split "." a) b) as [_ H1].
      rewrite H1, from_end_last_piece, from_end_last_piece in H.
      discriminate H.
    + intros H. rewrite (str_split_without "." path H). reflexivity.
  - intros name H. unfold track_name_of in H.
    destruct (from_end (str_split "." path) 1) as [seg |] eqn:E1;
      [|discriminate].
    apply from_end_In in E1. apply from_end_In in H.
    destruct (str_split_pieces "." path seg E1) as [Hseg _].
    destruct (str_split_pieces "\" seg name H) as [Hn Hsub].
    split; [apply Hsub, Hseg | exact Hn].
Qed.

Lemma track_name_of_shape_witness :
  track_name_of "C:\my.docs\book.pdf" = Some "book" /\
  track_name_of "/home/me/book.pdf" = Some "/home/me/book".
Proof.
  split.
  - exact (proj1 (proj2 (proj2 (track_name_of_shape "C:\my.docs\book.pdf")))
             "C:\my" "docs\book" "pdf" eq_refl eq_refl eq_refl).
  - exact (proj2 (proj2 (proj2 (track_name_of_shape "/home/me/book.pdf")))
             "/home/me/book" "pdf" eq_refl eq_refl eq_refl eq_refl).
Defined.

(** ** Text extraction *)

Lemma append_nil_r (s : string) : s ++ "" = s.
Proof. induction s as [| c s IH]; cbn; [reflexivity|]. rewrite IH. reflexivity. Qed.

Lemma fold_append (pages : list string) : forall acc,
  fold_left (fun text page => text ++ page) pages acc
  = acc ++ fold_left (fun text page => text ++ page) pages "".
Proof.
  induction pages as [| p ps IH]; intros acc; cbn.
  - rewrite append_nil_r. reflexivity.
  - rewrite (IH (acc ++ p)), (IH p), append_assoc. reflexivity.
Qed.

(** X9. The extracted text is the texts of the pages one after the
    other, in page order: extraction of a document is the extraction
    of its first pages followed by that of the remaining ones. *)
Theorem extract_text_in_page_order (pages more : list string) :
  extract_text (pages ++ more)%list = extract_text pages ++ extract_text more /\
  extract_text pages = String.concat "" pages /\
  String.length (extract_text pages)
  = fold_right (fun p n => (String.length p + n)%nat) 0%nat pages.
Proof.
  assert (Hcons : forall p ps, extract_text (p :: ps) = p ++ extract_text ps).
  { intros p ps. unfold extract_text. cbn. apply fold_append. }
  assert (Hlen : forall a b : string,
            String.length (a ++ b) = (String.length a + String.length b)%nat)
    by (induction a; cbn; auto).
  split; [|split].
  - induction pages as [| p ps IH]; [reflexivity|].
    rewrite <- app_comm_cons, !Hcons, IH, append_assoc. reflexivity.
  - induction pages as [| p ps IH]; [reflexivity|].
    rewrite Hcons, IH. destruct ps as [| q qs]; cbn.
    + apply append_nil_r.
    + reflexivity.
  - induction pages as [| p ps IH]; [reflexivity|].
    rewrite Hcons, Hlen, IH. reflexivity.
Qed.

(** ** Conversion and saving *)




(** ** Exit *)





Lemma print_lines_tidy (rt : Runtime) (out : list string) :
  tidy rt -> tidy (print_lines rt out).
Proof. intros H. exact H. Qed.







(** ** Opening a file that is not a PDF *)

(** X12. [check_path] returns only the path it was given, and only if
    it exists. It prints its message exactly when it returns [False],
    which it does exactly for a path that is not a regular file and is
    not an existing directory asked for as a folder. A regular file of
    the wrong kind is refused with [None] and without a message; so is
    a regular file asked for as a folder. *)
Theorem check_path_answers (w : World) (path type : string) :
  let r := GUI.check_path_body w path type in
  (forall p, fst r = GUI.CPath p ->
     p = path /\ path_exists (fs w) path = true) /\
  (snd r = ["Incorrect file path"] <-> fst r = GUI.CFalse) /\
  (snd r <> ["Incorrect file path"] -> snd r = []) /\
  (fst r = GUI.CFalse <->
   path_is_file (fs w) path = false /\
   (String.eqb type "folder" && path_exists (fs w) path = false)) /\
  (path_is_file (fs w) path = true ->
   snd r = [] /\
   (GUI.truthy (fst r) = false -> fst r = GUI.CNone) /\
   (type = "folder" -> fst r = GUI.CNone)).
Proof.
  unfold GUI.check_path_body, path_exists, path_is_file.
  destruct (fs w path) as [[data |] |]; cbn [andb].
  - destruct (String.eqb type "image" && _) eqn:E1;
      [|destruct (String.eqb type "pdf" && _) eqn:E2;
        [|destruct (String.eqb type "audio" && _) eqn:E3]];
      cbn [fst snd GUI.truthy];
      (split; [intros p H; try discriminate; injection H as <-;
               split; reflexivity|]);
      (split; [split; intros H; discriminate|]);
      (split; [reflexivity|]);
      (split; [split; [intros H; discriminate | intros [H _];
                                                 discriminate]|]);
      intros _; (split; [reflexivity|]);
      (split; [intros H; try discriminate; reflexivity|]);
      intros ->; try reflexivity; cbn in *; discriminate.
  - destruct (String.eqb type "folder"); cbn [andb fst snd GUI.truthy];
      (split; [intros p H; try discriminate; injection H as <-;
               split; reflexivity|]);
      (split; [split; intros H; try discriminate; reflexivity|]);
      (split; [intros H; try reflexivity; contradiction|]);
      (split; [split; [intros H; try discriminate; split; reflexivity
                      | intros [_ H]; try discriminate; reflexivity]|]);
      intros H; discriminate.
  - destruct (String.eqb type "folder"); cbn [andb fst snd GUI.truthy];
      (split; [intros p H; discriminate|]);
      (split; [split; reflexivity|]);
      (split; [intros H; contradiction|]);
      (split; [split; [intros _; split; reflexivity | reflexivity]|]);
      intros H; discriminate.
Qed.

Lemma check_path_answers_witness :
  GUI.check_path_body office_world "C:\docs\notes.txt" "pdf"
  = (GUI.CNone, []) /\
  GUI.check_path_body office_world "C:\docs" "pdf"
  = (GUI.CFalse, ["Incorrect file path"]).
Proof.
  pose proof (check_path_answers office_world "C:\docs\notes.txt" "pdf")
    as H1.
  pose proof (check_path_answers office_world "C:\docs" "pdf") as H2.
  cbv zeta in H1, H2.
  destruct H1 as [_ [_ [_ [_ H1]]]]. destruct H2 as [_ [H2 [_ [_ _]]]].
  destruct (H1 eq_refl) as [Hout [Hnone _]].
  split.
  - rewrite (surjective_pairing (GUI.check_path_body _ _ _)).
    rewrite Hout, (Hnone eq_refl). reflexivity.
  - rewrite (surjective_pairing (GUI.check_path_body _ _ _)).
    rewrite (proj2 H2 eq_refl). reflexivity.
Defined.

Lemma check_path_pdf_kw (w : World) (file_name : string) :
  GUI.check_path w [GUI.AClass "Widget"]
    [("path", GUI.AStr file_name); ("type", GUI.AStr "pdf")]
  = Ret (GUI.check_path_body w file_name "pdf").
Proof. reflexivity. Qed.

(** X13. An answer of the open dialog that is not a regular file --
    the empty answer of a cancelled dialog included -- prints
    "Incorrect file path"; a regular file that is not a [.pdf] is
    ignored without any message. In both cases nothing is converted:
    the player, the speech file, the files and the registered names
    stay as they were. *)
Theorem load_pdf_rejects (svc : Services) (w : World) (rt : Runtime)
  (file_name : string) :
  (path_is_file (files (process rt)) file_name = false ->
   load_pdf svc w rt file_name
   = Finished (print_lines rt ["Incorrect file path"])) /\
  (path_is_file (files (process rt)) file_name = true ->
   mem_string (path_suffix w file_name) [".pdf"] = false ->
   load_pdf svc w rt file_name = Finished (print_lines rt []) /\
   console (process (print_lines rt [])) = console (process rt)) /\
  (forall out,
     app (process (print_lines rt out)) = app (process rt) /\
     files (process (print_lines rt out)) = files (process rt) /\
     registered (print_lines rt out) = registered rt).
Proof.
  unfold load_pdf. rewrite check_path_pdf_kw.
  unfold GUI.check_path_body, world_at, path_exists, path_is_file.
  cbn [fs path_suffix].
  split; [|split].
  - intros H.
    destruct (files (process rt) file_name) as [[data |] |];
      [discriminate | reflexivity | reflexivity].
  - intros H Hs.
    destruct (files (process rt) file_name) as [[data |] |];
      try discriminate.
    cbn [andb String.eqb Ascii.eqb Bool.eqb]. rewrite Hs.
    split; [reflexivity|]. cbn. apply app_nil_r.
  - intros out. repeat split; reflexivity.
Qed.

Lemma load_pdf_rejects_witness :
  load_pdf office_services office_world office ""
    = Finished (print_lines office ["Incorrect file path"]) /\
  load_pdf office_services office_world office "C:\docs\notes.txt"
    = Finished (print_lines office []).
Proof.
  split.
  - exact (proj1 (load_pdf_rejects office_services office_world office "")
             eq_refl).
  - exact (proj1 (proj1 (proj2 (load_pdf_rejects office_services
                                  office_world office "C:\docs\notes.txt"))
                    eq_refl eq_refl)).
Defined.

(** ** Styles *)

Lemma dict_get_set_same {V : Type} (k : string) (v : V) (d : dict V) :
  dict_get k (dict_set k v d) = Some v.
Proof.
  induction d as [| [k' v'] d IH]; cbn.
  - rewrite String.eqb_refl. reflexivity.
  - destruct (String.eqb k' k) eqn:E; cbn; rewrite E; [reflexivity | exact IH].
Qed.

Lemma dict_get_set_other {V : Type} (k k0 : string) (v : V) (d : dict V) :
  k0 <> k -> dict_get k0 (dict_set k v d) = dict_get k0 d.
Proof.
  intros Hne. induction d as [| [k' v'] d IH]; cbn.
  - destruct (String.eqb_spec k k0); [congruence | reflexivity].
  - destruct (String.eqb_spec k' k) as [-> | Hk]; cbn.
    + destruct (String.eqb_spec k k0); [congruence | reflexivity].
    + rewrite IH. reflexivity.
Qed.

Lemma dict_set_twice {V : Type} (k : string) (v v' : V) (d : dict V) :
  dict_set k v' (dict_set k v d) = dict_set k v' d.
Proof.
  induction d as [| [k' v0] d IH]; cbn.
  - rewrite String.eqb_refl. reflexivity.
  - destruct (String.eqb k' k) eqn:E; cbn; rewrite E;
      [reflexivity | rewrite IH; reflexivity].
Qed.

Lemma dict_keys_set {V : Type} (k : string) (v : V) (d : dict V) :
  dict_keys (dict_set k v d)
  = match dict_get k d with
    | Some _ => dict_keys d
    | None => (dict_keys d ++ [k])%list
    end.
Proof.
  unfold dict_keys. induction d as [| [k' v'] d IH]; cbn; [reflexivity|].
  destruct (String.eqb k' k) eqn:E; cbn; [reflexivity|].
  rewrite IH. destruct (dict_get k d); reflexivity.
Qed.

Lemma dict_keys_NoDup {V : Type} (k : string) (v : V) (d : dict V) :
  NoDup (dict_keys d) -> NoDup (dict_keys (dict_set k v d)).
Proof.
  unfold dict_keys. induction d as [| [k' v'] d IH]; cbn; intros H.
  - constructor; [intros [] | constructor].
  - inversion H as [| x l Hx Hl]; subst.
    destruct (String.eqb_spec k' k) as [-> | Hne]; cbn.
    + constructor; assumption.
    + constructor; [|apply IH; exact Hl].
      intros Hin. apply Hx.
      pose proof (dict_keys_set k v d) as Hk. unfold dict_keys in Hk.
      rewrite Hk in Hin.
      destruct (dict_get k d); [exact Hin|].
      apply in_app_or in Hin. destruct Hin as [Hin | [E | []]];
        [exact Hin | congruence].
Qed.

Lemma add_style_styles (w : StyledWidget) (p k v : string) :
  styles (add_style w p k v)
  = dict_set p
      (dict_set k v (match dict_get p (styles w) with
                     | Some d => d
                     | None => []
                     end))
      (styles w).
Proof.
  unfold add_style. cbn [styles].
  destruct (dict_get p (styles w)) as [d |] eqn:E.
  - rewrite E. reflexivity.
  - rewrite dict_get_set_same, dict_set_twice. reflexivity.
Qed.

Lemma add_style_record (w : StyledWidget) (p k v : string) :
  add_style w p k v
  = {| object_name := object_name w;
       styles := styles (add_style w p k v);
       style_sheet :=
         update_style (object_name w) (styles (add_style w p k v)) |}.
Proof. reflexivity. Qed.

(** X14. After [add_style] the property has the given value under the
    given pseudo-element, every other property of every pseudo-element
    is as before, and the style sheet is the rendering of the new
    styles. *)
Theorem add_style_lookup (w : StyledWidget) (p k v p0 k0 : string) :
  style_of (add_style w p k v) p k = Some v /\
  (p0 <> p \/ k0 <> k ->
   style_of (add_style w p k v) p0 k0 = style_of w p0 k0) /\
  style_sheet (add_style w p k v)
  = update_style (object_name w) (styles (add_style w p k v)) /\
  object_name (add_style w p k v) = object_name w.
Proof.
  split; [|split; [|split]].
  - unfold style_of. rewrite add_style_styles, !dict_get_set_same.
    reflexivity.
  - intros H. unfold style_of. rewrite add_style_styles.
    destruct (string_dec p0 p) as [-> | Hp].
    + destruct H as [H | H]; [contradiction|].
      rewrite dict_get_set_same, (dict_get_set_other k k0) by exact H.
      destruct (dict_get p (styles w)); reflexivity.
    + rewrite (dict_get_set_other p p0) by exact Hp. reflexivity.
  - reflexivity.
  - reflexivity.
Qed.

Lemma add_style_lookup_witness :
  style_of (add_style (add_style {| object_name := "mp_track_bar";
                                    styles := []; style_sheet := "" |}
                         "none" "border-radius" "5px")
              "chunk" "margin" "0px") "none" "border-radius" = Some "5px".
Proof.
  set (w := add_style _ "none" "border-radius" "5px").
  assert (H : "none" <> "chunk" \/ "border-radius" <> "margin")
    by (left; discriminate).
  rewrite (proj1 (proj2 (add_style_lookup w "chunk" "margin" "0px"
                           "none" "border-radius")) H).
  reflexivity.
Defined.

(** X15. [add_style] keeps one block per pseudo-element and one entry
    per property: keys stay distinct, a key that exists keeps its
    place (a new one goes last), and a call repeated with the same
    arguments changes nothing, the style sheet included. *)
Theorem add_style_keeps_order (w : StyledWidget) (p k v : string) :
  (NoDup (dict_keys (styles w)) ->
   NoDup (dict_keys (styles (add_style w p k v)))) /\
  dict_keys (styles (add_style w p k v))
  = match dict_get p (styles w) with
    | Some _ => dict_keys (styles w)
    | None => (dict_keys (styles w) ++ [p])%list
    end /\
  (forall d, dict_get p (styles w) = Some d ->
     NoDup (dict_keys d) ->
     exists d', dict_get p (styles (add_style w p k v)) = Some d' /\
       NoDup (dict_keys d') /\
       dict_keys d' = match dict_get k d with
                      | Some _ => dict_keys d
                      | None => (dict_keys d ++ [k])%list
                      end) /\
  add_style (add_style w p k v) p k v = add_style w p k v.
Proof.
  split; [|split; [|split]].
  - intros H. rewrite add_style_styles. apply dict_keys_NoDup, H.
  - rewrite add_style_styles. apply dict_keys_set.
  - intros d Hd Hnd. rewrite add_style_styles, Hd, dict_get_set_same.
    eexists. split; [reflexivity|].
    split; [apply dict_keys_NoDup, Hnd | apply dict_keys_set].
  - assert (Hst : styles (add_style (add_style w p k v) p k v)
                  = styles (add_style w p k v)).
    { rewrite (add_style_styles (add_style w p k v)).
      rewrite (add_style_styles w), dict_get_set_same, !dict_set_twice.
      reflexivity. }
    rewrite (add_style_record (add_style w p k v)), Hst.
    change (object_name (add_style w p k v)) with (object_name w).
    symmetry. apply add_style_record.
Qed.

Lemma add_style_keeps_order_witness :
  let w := add_style {| object_name := "b"; styles := []; style_sheet := "" |}
             "none" "border" "none" in
  NoDup (dict_keys (styles (add_style w "none" "border" "1px"))) /\
  style_sheet (add_style w "none" "border" "1px") = "#b {border:1px; }".
Proof.
  cbv zeta. split; [|reflexivity].
  apply (proj1 (add_style_keeps_order _ "none" "border" "1px")).
  cbn. constructor; [intros [] | constructor].
Defined.

(** ** Window geometry and alignment *)

(** X16. The window is centred within one pixel on each axis; a window
    that fits on the screen lies entirely on it. *)
Theorem window_geometry_centred (sw sh width height : Z) :
  let '(x, y, w', h') := window_geometry sw sh width height in
  w' = width /\ h' = height /\
  -1 <= (2 * x + width) - sw <= 1 /\
  -1 <= (2 * y + height) - sh <= 1 /\
  (0 <= width <= sw -> 0 <= x /\ x + width <= sw) /\
  (0 <= height <= sh -> 0 <= y /\ y + height <= sh).
Proof.
  unfold window_geometry.
  pose proof (Z.div_mod sw 2 ltac:(lia)).
  pose proof (Z.mod_pos_bound sw 2 ltac:(lia)).
  pose proof (Z.div_mod sh 2 ltac:(lia)).
  pose proof (Z.mod_pos_bound sh 2 ltac:(lia)).
  pose proof (Z.div_mod width 2 ltac:(lia)).
  pose proof (Z.mod_pos_bound width 2 ltac:(lia)).
  pose proof (Z.div_mod height 2 ltac:(lia)).
  pose proof (Z.mod_pos_bound height 2 ltac:(lia)).
  repeat split; try reflexivity; lia.
Qed.

Lemma window_geometry_centred_witness :
  window_geometry 1920 1080 400 200 = (760, 440, 400, 200) /\
  0 <= 760 /\ 760 + 400 <= 1920.
Proof.
  split; [reflexivity|].
  pose proof (window_geometry_centred 1920 1080 400 200) as H.
  cbn in H. destruct H as [_ [_ [_ [_ [Hx _]]]]].
  apply Hx. lia.
Defined.

(** X17. An empty or missing alignment gives [AlignJustify]; any other
    string gives a combination of the five flags for centre, top,
    bottom, right and left, never [AlignJustify]. Whenever "center"
    occurs both centring bits are set, and they are never set one
    without the other: no string asks for centring on one axis only. *)
Theorem get_alignment_flags (alignment : option string) :
  let f := get_alignment alignment in
  (alignment = None \/ alignment = Some "" -> f = Qt.AlignJustify) /\
  (forall a, alignment = Some a -> a <> "" ->
     Z.land f (Z.lnot 231) = 0 /\ 0 <= f <= 231 /\
     (contains "center" a = true ->
      Z.land f Qt.AlignCenter = Qt.AlignCenter)) /\
  Z.testbit f 2 = Z.testbit f 7.
Proof.
  cbv zeta. split; [|split].
  - intros [-> | ->]; reflexivity.
  - intros a -> Ha. unfold get_alignment.
    destruct (String.eqb_spec a ""); [contradiction|].
    destruct (contains "center" a), (contains "top" a), (contains "bot" a),
      (contains "right" a), (contains "left" a);
      vm_compute; repeat split; intros; try discriminate; reflexivity.
  - unfold get_alignment. destruct alignment as [a |]; [|reflexivity].
    destruct (String.eqb a ""); [reflexivity|].
    destruct (contains "center" a), (contains "top" a), (contains "bot" a),
      (contains "right" a), (contains "left" a); reflexivity.
Qed.

Lemma get_alignment_flags_witness :
  Z.land (get_alignment (Some "centerbot")) Qt.AlignCenter = Qt.AlignCenter /\
  get_alignment (Some "") = Qt.AlignJustify.
Proof.
  pose proof (get_alignment_flags (Some "centerbot")) as H1.
  pose proof (get_alignment_flags (Some "")) as H2.
  cbv zeta in H1, H2.
  destruct H1 as [_ [H1 _]]. destruct H2 as [H2 _].
  split.
  - assert (Hne : "centerbot" <> "") by discriminate.
    exact (proj2 (proj2 (H1 "centerbot" eq_refl Hne)) eq_refl).
  - apply H2. right. reflexivity.
Defined.

